(** * A shallow embedding of the react-spreadsheet state core

    The development follows the JavaScript sources:
    - [src/matrix.js]: the immutable matrix interface;
    - [src/Spreadsheet.js] (it follows [ActiveCell.js] in the same file):
      key handlers, clipboard handlers and the mount / unmount life cycle;
    - [src/ActiveCell.js]: the commit logic of [componentDidUpdate].

    Modules that the sources import but that are not among them ([util],
    [point-set]) are modelled from their description and are marked as
    such. *)

From Stdlib Require Import Ascii.
From stdpp Require Import gmap strings list pretty.

#[local] Set Warnings "-register-all".
Local Open Scope Z_scope.

(** ** JavaScript values *)

Module Js.

(** The values a cell, or a field of a cell, can hold.  Numbers are
    restricted to integers (no [NaN], no fractions).  Objects carry the
    address they live at, which is what [===] compares, and their own
    enumerable properties. *)
Inductive value :=
| Undefined
| Null
| Bool (b : bool)
| Num (n : Z)
| Str (s : string)
| Obj (addr : positive) (props : list (string * value)).

(** [Boolean(v)] *)
Definition truthy (v : value) : bool :=
  match v with
  | Undefined | Null => false
  | Bool b => b
  | Num n => negb (n =? 0)
  | Str s => negb (String.eqb s "")
  | Obj _ _ => true
  end.

(** [a === b]: primitives by value, objects by identity. *)
Definition strict_eq (a b : value) : bool :=
  match a, b with
  | Undefined, Undefined | Null, Null => true
  | Bool x, Bool y => Bool.eqb x y
  | Num x, Num y => x =? y
  | Str x, Str y => String.eqb x y
  | Obj x _, Obj y _ => Pos.eqb x y
  | _, _ => false
  end.

Fixpoint assoc (k : string) (props : list (string * value)) : value :=
  match props with
  | [] => Undefined
  | (k', v) :: rest => if String.eqb k k' then v else assoc k rest
  end.

(** [v.k] for the property names the sources read ([data], [value]).
    Reading a property of [undefined] or [null] throws a [TypeError],
    rendered as [None]; primitives have no such property. *)
Definition prop (k : string) (v : value) : option value :=
  match v with
  | Undefined | Null => None
  | Obj _ props => Some (assoc k props)
  | _ => Some Undefined
  end.

(** [String(v)] for values that are neither [undefined] nor [null]. *)
Definition to_string (v : value) : string :=
  match v with
  | Undefined => "undefined"
  | Null => "null"
  | Bool true => "true"
  | Bool false => "false"
  | Num n => pretty n
  | Str s => s
  | Obj _ _ => "[object Object]"
  end.

(** *** Arrays

    A JavaScript array is a list of slots; [None] is a hole (an index
    below [length] that was never assigned). *)
Abbreviation array A := (list (option A)) (only parsing).

(** [arr[i]]; [None] stands for [undefined]. *)
Definition index {A} (arr : array A) (i : Z) : option A :=
  if i <? 0 then None else mjoin (arr !! Z.to_nat i).

(** [arr[i] = x] on an array that is not shared.  The array grows, with
    holes, when [i] is beyond its length.  A negative [i] names an ordinary
    property and leaves the elements alone. *)
Definition assign {A} (i : Z) (x : A) (arr : array A) : array A :=
  if i <? 0 then arr
  else if (Z.to_nat i <? length arr)%nat then <[Z.to_nat i := Some x]> arr
  else arr ++ replicate (Z.to_nat i - length arr)%nat None ++ [Some x].

(** [[...arr]] for an array of values: iteration reads holes as
    [undefined]. *)
Definition spread (arr : array value) : array value :=
  (λ slot, Some (default Undefined slot)) <$> arr.

(** The string an element contributes to [Array.prototype.join]. *)
Definition join_item (slot : option value) : string :=
  match slot with
  | None | Some Undefined | Some Null => ""
  | Some v => to_string v
  end.

(** The strings ["\n"] and ["\t"]. *)
Definition newline : string := String "010"%char "".
Definition tab : string := String "009"%char "".

(** [arr.join(separator)] *)
Definition join (separator : string) (arr : array value) : string :=
  String.concat separator (join_item <$> arr).

End Js.

(** ** [util.js]: the helpers [matrix.js] imports *)

Module Util.

(** Modelled from the spec: the source of [util.range(end, start, step)] is
    missing; its tests ([util.test.ts], [describe("range()")]) fix it as
    the numbers progressing from [start] up to, but not including, [end]
    by [step], downwards when [start] is the larger one. *)
Definition range (end_ start : Z) (step : positive) : list Z :=
  let count := Z.to_nat ((Z.abs (end_ - start) + Z.pos step - 1) / Z.pos step) in
  (λ i : nat, if end_ <? start then start - Z.of_nat i * Z.pos step
              else start + Z.of_nat i * Z.pos step) <$> seq 0 count.

(** Modelled from the spec: [util.flatMap(array, func)] maps and
    concatenates. *)
Definition flatMap {A B} (arr : list A) (func : A → list B) : list B :=
  concat (func <$> arr).

End Util.

(** ** [types.js]: points *)

Record Point := mkPoint { row : Z; column : Z }.

Global Instance Point_eq_dec : EqDecision Point.
Proof. solve_decision. Defined.

Global Instance Point_countable : Countable Point.
Proof.
  apply (inj_countable' (λ p, (row p, column p)) (λ rc, mkPoint rc.1 rc.2)).
  by intros [].
Defined.

(** ** [matrix.js] *)

Module Matrix.
Import Js.

(** A row is an array of cells.  A matrix is an array of rows; here [None]
    stands for a hole as well as for an [undefined] entry, which every
    function below reads through [matrix[row]], [row && ...] or a spread
    and so cannot tell apart. *)
Abbreviation Row := (array value) (only parsing).
Abbreviation Matrix := (list (option Row)) (only parsing).

(** Gets the value at row and column of matrix. *)
Definition get (row column : Z) (matrix : Matrix) : value :=
  match index matrix row with
  | None => Undefined
  | Some columns => default Undefined (index columns column)
  end.

(** Sets the value at row and column of matrix.  If a row doesn't exist,
    it's created. *)
Definition set (row column : Z) (v : value) (matrix : Matrix) : Matrix :=
  let nextRow :=
    match index matrix row with
    | Some r => spread r
    | None => []
    end in
  let nextRow := assign column v nextRow in
  let nextMatrix := matrix in
  assign row nextRow nextMatrix.

(** [row.filter(func)]: holes are skipped, the result is dense. *)
Definition filter_row (func : value → bool) (r : Row) : Row :=
  Some <$> List.filter func (omap id r).

(** Iterates over elements of matrix, returning all elements the predicate
    is truthy for.  Empty rows are excluded. *)
Definition filter (func : value → bool) (matrix : Matrix) : Matrix :=
  Some <$>
    List.filter (λ r : Row, negb (length r =? 0)%nat)
      (omap (option_map (filter_row func)) matrix).

(** [row.map(func)]: holes stay holes; [func] may throw. *)
Definition map_row (func : value → option value) (r : Row) : option Row :=
  mapM (λ slot, match slot with
                | None => Some None
                | Some v => Some <$> func v
                end) r.

(** Creates a matrix by running each element through the iteratee. *)
Definition map (func : value → option value) (matrix : Matrix)
  : option Matrix :=
  mapM (λ r, match r with
             | None => Some None
             | Some r => Some <$> map_row func r
             end) matrix.

(** Converts all elements in a row into a string separated by
    [horizontalSeparator] and the row strings into a string separated by
    [verticalSeparator]. *)
Definition join_with (horizontalSeparator verticalSeparator : string)
    (matrix : Matrix) : string :=
  String.concat verticalSeparator
    ((λ r, match r with
           | None => ""
           | Some r => Js.join horizontalSeparator r
           end) <$> matrix).

(** The default arguments of [join]. *)
Definition join (matrix : Matrix) : string :=
  join_with ", " newline matrix.

(** Returns whether the point exists in the matrix or not. *)
Definition has (row column : Z) (matrix : Matrix) : bool :=
  match index matrix row with
  | None => false
  | Some r => truthy (default Undefined (index r column))
  end.

Record Size := mkSize { columns : nat; rows : nat }.

(** Gets the size of matrix by returning its number of rows and columns. *)
Definition getSize (matrix : Matrix) : Size :=
  let firstRow := index matrix 0 in
  {| columns := match firstRow with Some r => length r | None => 0%nat end;
     rows := length matrix |}.

(** Creates the points progressing from [startPoint] up to, but not
    including, [endPoint]. *)
Definition range (endPoint startPoint : Point) : list Point :=
  let columnsRange :=
    if negb (column startPoint =? column endPoint)
    then Util.range (column endPoint) (column startPoint) 1
    else if negb (row startPoint =? row endPoint)
         then [column startPoint]
         else [] in
  let rowsRange :=
    if negb (row startPoint =? row endPoint)
    then Util.range (row endPoint) (row startPoint) 1
    else if negb (column startPoint =? column endPoint)
         then [row startPoint]
         else [] in
  Util.flatMap rowsRange (λ row,
    (λ column, {| row := row; column := column |}) <$> columnsRange).

Definition inclusiveRange (endPoint startPoint : Point) : list Point :=
  range
    {| row := row endPoint + Z.sgn (row endPoint - row startPoint);
       column := column endPoint
                 + Z.sgn (column endPoint - column startPoint) |}
    startPoint.

End Matrix.

Example range_basic : Util.range 10 1 2 = [1; 3; 5; 7; 9].
Proof. reflexivity. Qed.

Example range_negative :
  Util.range 10 (-10) 2 = [-10; -8; -6; -4; -2; 0; 2; 4; 6; 8].
Proof. reflexivity. Qed.

Example range_decreasing : Util.range 1 5 1 = [5; 4; 3; 2].
Proof. reflexivity. Qed.

(** ** [matrix.js] on the heap

    [get] and [set] once more, with arrays as the mutable, shared objects
    they are: a matrix is the address of an array of row addresses.  This
    is the level at which "immutable interface" says something. *)

Module Heap.
Import Js.

Inductive object :=
| Cells (elements : array value)
| Rows (elements : array positive).

Abbreviation heap := (gmap positive object).

(** A new array object. *)
Definition allocate (o : object) (h : heap) : positive * heap :=
  let address := fresh (dom h) in (address, <[address := o]> h).

(** [cells[i] = v], in place. *)
Definition assignCell (cells : positive) (i : Z) (v : value) (h : heap)
  : option heap :=
  match h !! cells with
  | Some (Cells elements) => Some (<[cells := Cells (assign i v elements)]> h)
  | _ => None
  end.

(** [rows[i] = r], in place. *)
Definition assignRow (rows : positive) (i : Z) (r : positive) (h : heap)
  : option heap :=
  match h !! rows with
  | Some (Rows elements) => Some (<[rows := Rows (assign i r elements)]> h)
  | _ => None
  end.

(** Gets the value at row and column of matrix. *)
Definition get (row column : Z) (matrix : positive) (h : heap)
  : option value :=
  match h !! matrix with
  | Some (Rows rows) =>
      match index rows row with
      | None => Some Undefined
      | Some columns =>
          match h !! columns with
          | Some (Cells cells) => Some (default Undefined (index cells column))
          | _ => None
          end
      end
  | _ => None
  end.

(** Sets the value at row and column of matrix.  If a row doesn't exist,
    it's created.  [None] only when [matrix] is not the address of a
    matrix. *)
Definition set (row column : Z) (v : value) (matrix : positive) (h : heap)
  : option (positive * heap) :=
  match h !! matrix with
  | Some (Rows rows) =>
      copy ← match index rows row with
             | Some r =>
                 match h !! r with
                 | Some (Cells cells) => Some (spread cells)
                 | _ => None
                 end
             | None => Some []
             end;
      let '(nextRow, h) := allocate (Cells copy) h in
      h ← assignCell nextRow column v h;
      let '(nextMatrix, h) := allocate (Rows rows) h in
      h ← assignRow nextMatrix row nextRow h;
      Some (nextMatrix, h)
  | _ => None
  end.

(** The row a slot of a matrix array stands for. *)
Definition rowAt (h : heap) (slot : option positive)
  : option (option (array value)) :=
  match slot with
  | None => Some None
  | Some r =>
      match h !! r with
      | Some (Cells cells) => Some (Some cells)
      | _ => None
      end
  end.

(** The matrix value stored at an address. *)
Definition matrixAt (h : heap) (matrix : positive)
  : option (list (option (array value))) :=
  match h !! matrix with
  | Some (Rows rows) => mapM (rowAt h) rows
  | _ => None
  end.

End Heap.

(** ** [point-set.js] *)

Module PointSet.

(** The axis a set is inspected along: the property names ["row"] and
    ["column"] of a point. *)
Inductive Field := Row | Column.

Definition coordinate (field : Field) (p : Point) : Z :=
  match field with Row => row p | Column => column p end.

(** Modelled from the spec: the source of [point-set.js] is missing.  A
    PointSet is "an unordered collection of unique Points"; [from] builds
    one from an array of points. *)
Definition from (points : list Point) : gset Point := list_to_set points.

(** Modelled from the spec: membership test of [point-set.js]. *)
Definition has (set : gset Point) (point : Point) : bool :=
  bool_decide (point ∈ set).

(** Modelled from the spec: [add] of [point-set.js]. *)
Definition add (set : gset Point) (point : Point) : gset Point :=
  {[ point ]} ∪ set.

(** Modelled from the spec: [filter] of [point-set.js] keeps the points the
    predicate holds for. *)
Definition filter (func : Point → bool) (set : gset Point) : gset Point :=
  base.filter (λ p, Is_true (func p)) set.

(** Modelled from the spec: [reduce] of [point-set.js] is a "fold with
    point+accumulator" over the points of the set. *)
Definition reduce {A} (func : A → Point → A) (set : gset Point) (initial : A)
  : A :=
  foldl func initial (elements set).

(** Modelled from the spec: [toArray] of [point-set.js]. *)
Definition toArray (set : gset Point) : list Point := elements set.

(** Modelled from the spec: [toMatrix(set, data)] of [point-set.js] is the
    "sparse matrix containing only selected cells". *)
Definition toMatrix (set : gset Point) (data : Matrix.Matrix)
  : Matrix.Matrix :=
  reduce
    (λ acc p,
       Matrix.set (row p) (column p) (Matrix.get (row p) (column p) data) acc)
    set [].

(** Modelled from the spec: [getEdgeValue(set, axis, direction)] of
    [point-set.js] "returns the minimum (direction=-1) or maximum
    (direction=+1) row/column present".  In a set without points none is
    present, and the spec does not tell what the call does then, nor
    whether it returns: [None] marks that case and says nothing about it.
    A caller that can reach it takes what happens there as a parameter. *)
Definition getEdgeValue (set : gset Point) (field : Field) (delta : Z)
  : option Z :=
  match coordinate field <$> elements set with
  | [] => None
  | x :: xs => Some (foldl (if delta <? 0 then Z.min else Z.max) x xs)
  end.

End PointSet.

(** ** [Spreadsheet.js]: the store and its handlers *)

Inductive Mode := view | edit.

Global Instance Mode_eq_dec : EqDecision Mode.
Proof. solve_decision. Defined.

(** The fields of [Types.StoreState] that the handlers read or write.
    [cut] and [hasPasted] are absent from [initialState], hence optional. *)
Record StoreState := mkState {
  data : Matrix.Matrix;
  selected : gset Point;
  copied : gset Point;
  active : option Point;
  mode : Mode;
  cut : option bool;
  hasPasted : option bool
}.

(** [$Shape<Types.StoreState>]: any subset of the fields. *)
Record Patch := mkPatch {
  patch_data : option Matrix.Matrix;
  patch_selected : option (gset Point);
  patch_copied : option (gset Point);
  patch_active : option Point;
  patch_mode : option Mode;
  patch_cut : option bool;
  patch_hasPasted : option bool
}.

(** [store.setState(patch)]: a shallow merge. *)
Definition setState (patch : Patch) (state : StoreState) : StoreState :=
  {| data := default (data state) (patch_data patch);
     selected := default (selected state) (patch_selected patch);
     copied := default (copied state) (patch_copied patch);
     active := match patch_active patch with
               | Some p => Some p
               | None => active state
               end;
     mode := default (mode state) (patch_mode patch);
     cut := match patch_cut patch with Some b => Some b | None => cut state end;
     hasPasted := match patch_hasPasted patch with
                  | Some b => Some b
                  | None => hasPasted state
                  end |}.

(** What running a piece of handler code ends in. *)
Inductive outcome (A : Type) :=
| Returns (a : A)
| Throws.
Arguments Returns {A} a.
Arguments Throws {A}.

Record KeyboardEvent := mkEvent { key : string; shiftKey : bool }.

(** A handler returns a patch, or [null] (here [None]) for "no update". *)
Definition KeyDownHandler := StoreState → KeyboardEvent → outcome (option Patch).

Definition initialState (data : Matrix.Matrix) : StoreState :=
  {| selected := PointSet.from [];
     copied := PointSet.from [];
     active := None;
     mode := view;
     data := data;
     cut := None;
     hasPasted := None |}.

(** An action bound to the store: the patch it returns is merged into the
    state, [null] leaves the state alone, an exception escapes. *)
Definition dispatch {E} (action : StoreState → E → outcome (option Patch))
    (state : StoreState) (event : E) : outcome StoreState :=
  match action state event with
  | Throws => Throws
  | Returns None => Returns state
  | Returns (Some patch) => Returns (setState patch state)
  end.

Definition go (rowDelta columnDelta : Z) : KeyDownHandler :=
  λ state event,
    match active state with
    | None => Returns None
    | Some a =>
        let nextActive :=
          {| row := row a + rowDelta; column := column a + columnDelta |} in
        if negb (Matrix.has (row nextActive) (column nextActive) (data state))
        then Returns (Some (mkPatch None None None None (Some view) None None))
        else Returns (Some (mkPatch None (Some (PointSet.from [nextActive]))
                              None (Some nextActive) (Some view) None None))
    end.

(** The callback [getValue] of [Spreadsheet.js], [({ data }) => data.value],
    applied to one argument. *)
Definition getValue (arg : Js.value) : option Js.value :=
  d ← Js.prop "data" arg; Js.prop "value" d.

Section Handlers.

(** [updateData] comes from [util.js], [extendEdge] and [shrinkEdge] from
    [point-set.js]; their sources are missing.  [allocate] stands for the
    address the engine gives the object literal of [cellFromValue]. *)
Variable updateData : Matrix.Matrix → Point → Js.value → Matrix.Matrix.
Variable extendEdge shrinkEdge :
  gset Point → PointSet.Field → Z → gset Point.
Variable allocate : Matrix.Matrix → positive.

Definition cellFromValue (addr : positive) (value : Js.value) : Js.value :=
  Js.Obj addr [("value", value)].

Definition keyDownHandlers (key : string) : option KeyDownHandler :=
  if String.eqb key "ArrowUp" then Some (go (-1) 0)
  else if String.eqb key "ArrowDown" then Some (go 1 0)
  else if String.eqb key "ArrowLeft" then Some (go 0 (-1))
  else if String.eqb key "ArrowRight" then Some (go 0 1)
  else if String.eqb key "Tab" then Some (go 0 1)
  else if String.eqb key "Enter" then
    Some (λ state event,
            Returns (Some (mkPatch None None None None (Some edit) None None)))
  else if String.eqb key "Backspace" then
    Some (λ state event,
            match active state with
            | None => Returns None
            | Some _ =>
                Returns (Some (mkPatch
                  (Some (PointSet.reduce
                           (λ acc point,
                              updateData acc point
                                (cellFromValue (allocate acc) (Js.Str "")))
                           (selected state) (data state)))
                  None None None None None None))
            end)
  else None.

Definition editKeyDownHandlers (key : string) : option KeyDownHandler :=
  if String.eqb key "Escape" then
    Some (λ state event,
            Returns (Some (mkPatch None None None None (Some view) None None)))
  else if String.eqb key "Tab" then keyDownHandlers "Tab"
  else if String.eqb key "Enter" then keyDownHandlers "ArrowDown"
  else None.

Definition with_coordinate (field : PointSet.Field) (x : Z) (p : Point)
  : Point :=
  match field with
  | PointSet.Row => {| row := x; column := column p |}
  | PointSet.Column => {| row := row p; column := x |}
  end.

Definition modifyEdge (field : PointSet.Field) (delta : Z) : KeyDownHandler :=
  λ state event,
    match active state with
    | None => Throws
    | Some a =>
        let edgeOffsets :=
          PointSet.has (selected state)
            (with_coordinate field
               (PointSet.coordinate field a + delta * -1) a) in
        let nextSelected :=
          if edgeOffsets
          then shrinkEdge (selected state) field (delta * -1)
          else extendEdge (selected state) field delta in
        Returns (Some (mkPatch None
          (Some (PointSet.filter
                   (λ point, Matrix.has (row point) (column point) (data state))
                   nextSelected))
          None None None None None))
    end.

Definition shiftKeyDownHandlers (key : string) : option KeyDownHandler :=
  if String.eqb key "ArrowUp" then Some (modifyEdge PointSet.Row (-1))
  else if String.eqb key "ArrowDown" then Some (modifyEdge PointSet.Row 1)
  else if String.eqb key "ArrowLeft" then Some (modifyEdge PointSet.Column (-1))
  else if String.eqb key "ArrowRight" then Some (modifyEdge PointSet.Column 1)
  else None.

Definition handleKeyPress (state : StoreState) (event : KeyboardEvent)
  : outcome (option Patch) :=
  match mode state, active state with
  | view, Some _ =>
      Returns (Some (mkPatch None None None None (Some edit) None None))
  | _, _ => Returns None
  end.

Definition handleKeyDown (state : StoreState) (event : KeyboardEvent)
  : outcome (option Patch) :=
  let handlers :=
    (* Order matters *)
    match mode state with
    | edit => editKeyDownHandlers
    | view => if shiftKey event then shiftKeyDownHandlers else keyDownHandlers
    end in
  match handlers (key event) with
  | Some handler => handler state event
  | None => Returns None
  end.

End Handlers.

(** *** Clipboard handlers of [SpreadsheetWrapper] *)

(** What a clipboard handler leaves behind: the text handed to
    [clipboard.writeText], if any, and the next store state. *)
Record Copied := mkCopied {
  clipboard : option string;
  after : StoreState
}.

(** [handleCopy].  [permissions] is [None] when [navigator.permissions] is
    missing, and otherwise holds the [state] field of the status the
    permission query resolves to (a query that is rejected is left out).
    The text is computed before the state is updated, also when it is
    written only once the query has resolved. *)
Definition handleCopy (permissions : option Js.value) (state : StoreState)
  : outcome Copied :=
  let matrix := PointSet.toMatrix (selected state) (data state) in
  let filteredMatrix := Matrix.filter Js.truthy matrix in
  match Matrix.map getValue filteredMatrix with
  | None => Throws
  | Some valueMatrix =>
      let copy := Matrix.join valueMatrix in
      let written :=
        match permissions with
        | Some readClipboardStatus =>
            if Js.truthy readClipboardStatus then Some copy else None
        | None => Some copy
        end in
      Returns
        {| clipboard := written;
           after := setState
                      (mkPatch None None (Some (selected state)) None None
                         (Some false) (Some false))
                      state |}
  end.

Definition handleCut (permissions : option Js.value) (state : StoreState)
  : outcome Copied :=
  match handleCopy permissions state with
  | Throws => Throws
  | Returns c =>
      Returns
        {| clipboard := clipboard c;
           after := setState
                      (mkPatch None None None None None (Some true) None)
                      (after c) |}
  end.

(** The accumulator of the fold in [handlePaste]. *)
Record Pasting := mkPasting {
  acc_data : Matrix.Matrix;
  acc_selected : gset Point
}.

(** The callback [handlePaste] folds over the copied points. *)
Definition paste_point (prevState : StoreState) (minRow minColumn : Z)
    (a : Point) (acc : Pasting) (p : Point) : Pasting :=
  let nextRow := row p - minRow + row a in
  let nextColumn := column p - minColumn + column a in
  let nextPointExists := Matrix.has nextRow nextColumn (data prevState) in
  if negb nextPointExists then acc
  else
    let nextData :=
      Matrix.set nextRow nextColumn
        (Matrix.get (row p) (column p) (data prevState)) (acc_data acc) in
    let nextSelected :=
      PointSet.add (acc_selected acc)
        {| row := nextRow; column := nextColumn |} in
    {| acc_data := nextData; acc_selected := nextSelected |}.

(** [handlePaste].  The callback runs once per copied point and reads
    [prevState.active.row], which throws when there is no active point.
    With nothing copied the callback never runs, and all that is left to
    decide the outcome is the two calls of [getEdgeValue] on a set without
    points.  [point-set.js] is missing and the spec is silent on that
    case, so it is the parameter [edgeOfNothing]: [Throws] if such a call
    throws, [Returns ()] if it returns, whatever it returns going unused. *)
Definition handlePaste (edgeOfNothing : outcome ()) (prevState : StoreState)
  : outcome StoreState :=
  let minRow := PointSet.getEdgeValue (copied prevState) PointSet.Row (-1) in
  let minColumn :=
    PointSet.getEdgeValue (copied prevState) PointSet.Column (-1) in
  let initial :=
    {| acc_data := data prevState; acc_selected := PointSet.from [] |} in
  let folded :=
    match minRow, minColumn with
    | Some minRow, Some minColumn =>
        match active prevState with
        | Some a =>
            Returns (PointSet.reduce (paste_point prevState minRow minColumn a)
                       (copied prevState) initial)
        | None => Throws
        end
    | _, _ =>
        match edgeOfNothing with
        | Returns _ => Returns initial
        | Throws => Throws
        end
    end in
  match folded with
  | Throws => Throws
  | Returns r =>
      Returns (setState
                 (mkPatch (Some (acc_data r)) (Some (acc_selected r)) None None
                    (Some view) (Some false) (Some true))
                 prevState)
  end.

(** *** Mounting and unmounting

    The listeners alive on the page: those registered on [document], each
    tagged with the widget instance that added it, and the instances whose
    store still holds the subscription made at mount. *)
Record Page := mkPage {
  documentListeners : list (string * nat);
  storeSubscriptions : list nat
}.

Definition componentDidMount (instance : nat) (page : Page) : Page :=
  {| storeSubscriptions := instance :: storeSubscriptions page;
     documentListeners :=
       documentListeners page
         ++ [("copy", instance); ("cut", instance); ("paste", instance)] |}.

(** [this.unsubscribe()] *)
Definition componentWillUnmount (instance : nat) (page : Page) : Page :=
  {| storeSubscriptions :=
       List.filter (λ i, negb (i =? instance)%nat) (storeSubscriptions page);
     documentListeners := documentListeners page |}.

(** The listeners an instance still has registered. *)
Definition listenersOf (instance : nat) (page : Page) : nat :=
  (length (List.filter (λ l, (l.2 =? instance)%nat) (documentListeners page))
   + length (List.filter (λ i, (i =? instance)%nat) (storeSubscriptions page)))%nat.

(** ** [ActiveCell.js] *)

Module ActiveCell.

Record CommitRecord := mkCommit { prevCell : Js.value; nextCell : Js.value }.

(** The calls a method makes on the callbacks it got as props. *)
Inductive Call :=
| commit (records : list CommitRecord)
| setCellData (active : Point) (data : Js.value) (bindings : list Point).

(** The props [componentDidUpdate] inspects.  [mapStateToProps] passes
    neither [cell] nor [mode] while the cell is hidden, so a missing [mode]
    is [None] and a missing [cell] is [undefined]. *)
Record Props := mkProps { cell : Js.value; mode : option Mode }.

Record State := mkCellState { cellBeforeUpdate : Js.value }.

Definition initial : State := {| cellBeforeUpdate := Js.Null |}.

Section Component.

Variable getBindingsForCell : Js.value → list Point.

Definition handleChange (row column : Z) (cell : Js.value) : list Call :=
  let bindings := getBindingsForCell cell in
  [setCellData {| row := row; column := column |} cell bindings].

(** NOTE: Currently all logics here belongs to commit event *)
Definition componentDidUpdate (prevProps props : Props) (this : State)
  : State * list Call :=
  if Js.truthy (cell props) || Js.strict_eq (cell props) Js.Undefined then
    if bool_decide (mode prevProps = Some view)
       && bool_decide (mode props = Some edit)
    then ({| cellBeforeUpdate := cell prevProps |}, [])
    else if bool_decide (mode prevProps = Some edit)
            && negb (bool_decide (mode prevProps = mode props))
            && Js.truthy (cell prevProps)
            && negb (Js.strict_eq (cell prevProps) (cellBeforeUpdate this))
    then (this, [commit [ {| prevCell := cellBeforeUpdate this;
                             nextCell := cell prevProps |} ]])
    else (this, [])
  else (this, []).

(** The component re-rendered through a sequence of props: every step
    runs [componentDidUpdate] with the props before and after it. *)
Fixpoint updates (prevProps : Props) (rest : list Props) (this : State)
  : State * list Call :=
  match rest with
  | [] => (this, [])
  | props :: rest' =>
      let '(this', calls) := componentDidUpdate prevProps props this in
      let '(this'', calls') := updates props rest' this' in
      (this'', calls ++ calls')
  end.

End Component.

End ActiveCell.

(** ** [util.ts]: formula resolution *)

Module Formula.

(** Modelled from the spec: the cell type of [util.ts], with its reserved
    field [value]. *)
Record CellBase := mkCell { value : Js.value }.

(** Modelled from the spec: what the formula parser's [parse] returns. *)
Record Parsed := mkParsed { result : Js.value; error : Js.value }.

(** A computation that may call [formulaParser.parse]: its value and the
    formula texts it handed to the parser, in order. *)
Definition traced (A : Type) : Type := A * list string.

Section Resolution.

(** The reserved prefix, a constant of [util.ts]. *)
Variable FORMULA_VALUE_PREFIX : string.
Variable parse : string → Parsed.

(** Modelled from the spec: "[isFormulaCell(cell)] is true iff [cell.value]
    starts with the reserved prefix". *)
Definition isFormulaCell (cell : CellBase) : bool :=
  match value cell with
  | Js.Str s => String.prefix FORMULA_VALUE_PREFIX s
  | _ => false
  end.

(** Modelled from the spec: "[extractFormula] on such a value returns the
    value with exactly that prefix removed". *)
Definition extractFormula (value : string) : string :=
  String.substring (String.length FORMULA_VALUE_PREFIX)
    (String.length value - String.length FORMULA_VALUE_PREFIX) value.

(** Modelled from the spec: [getFormulaComputedValue] "delegates to the
    formula-parser collaborator's [parse(formulaText)], which returns
    [{result, error}]" and "returns [error] if non-null, else [result]".
    A raw value that is not a string has no formula text: [None]. *)
Definition getFormulaComputedValue (cell : CellBase)
  : option (traced Js.value) :=
  match value cell with
  | Js.Str s =>
      let formula := extractFormula s in
      let parsed := parse formula in
      Some (match error parsed with
            | Js.Null => result parsed
            | e => e
            end, [formula])
  | _ => None
  end.

(** Modelled from the spec: [getComputedValue] "returns [null] if cell is
    undefined; returns the raw [value] unchanged if not a formula cell;
    otherwise delegates" to [getFormulaComputedValue]. *)
Definition getComputedValue (cell : option CellBase)
  : option (traced Js.value) :=
  match cell with
  | None => Some (Js.Null, [])
  | Some cell =>
      if isFormulaCell cell then getFormulaComputedValue cell
      else Some (value cell, [])
  end.

End Resolution.

End Formula.

(** * Vocabulary of the statements

    Notions the statements below are phrased with, and the concrete sheets,
    states and sessions they are tried on. *)

(** The patch [{ mode: "view" }]. *)
Definition resetMode : Patch :=
  mkPatch None None None None (Some view) None None.

(** The patch that moves the active cell to [target]. *)
Definition moveTo (target : Point) : Patch :=
  mkPatch None (Some {[ target ]}) None (Some target) (Some view) None None.

(** The direction a key moves the active cell in: the rows of the
    navigation table, with Tab the same as ArrowRight. *)
Definition direction (key : string) : option (Z * Z) :=
  if String.eqb key "ArrowUp" then Some (-1, 0)
  else if String.eqb key "ArrowDown" then Some (1, 0)
  else if String.eqb key "ArrowLeft" then Some (0, -1)
  else if String.eqb key "ArrowRight" then Some (0, 1)
  else if String.eqb key "Tab" then Some (0, 1)
  else None.

Definition cellA : Js.value := Js.Obj 1 [("value", Js.Str "A")].
Definition cellB : Js.value := Js.Obj 2 [("value", Js.Str "B")].

(** One row holding "A" and "B". *)
Definition sheetAB : Matrix.Matrix := [Some [Some cellA; Some cellB]].

(** An instance of the helpers the handlers are parameterised by. *)
Definition writeCell (m : Matrix.Matrix) (p : Point) (v : Js.value)
  : Matrix.Matrix :=
  Matrix.set (row p) (column p) v m.
Definition keepEdge (s : gset Point) (f : PointSet.Field) (d : Z)
  : gset Point := s.
Definition firstAddress (m : Matrix.Matrix) : positive := 1%positive.

Definition keyDownAB : StoreState → KeyboardEvent → outcome (option Patch) :=
  handleKeyDown writeCell keepEdge keepEdge firstAddress.

(** The active cell is (0,0), alone selected. *)
Definition atOrigin : StoreState :=
  mkState sheetAB {[ mkPoint 0 0 ]} ∅ (Some (mkPoint 0 0)) view None None.

(** The active cell is (0,1), the last column, and both cells of the row
    are selected (as after Shift+ArrowLeft from (0,1)). *)
Definition atLastColumn : StoreState :=
  mkState sheetAB {[ mkPoint 0 0; mkPoint 0 1 ]} ∅ (Some (mkPoint 0 1))
    view None None.

(** The active cell is (0,0); the cell to its right, (0,1), is within the
    row but holds nothing. *)
Definition besideBlank : StoreState :=
  mkState [Some [Some cellA; Some Js.Undefined]] {[ mkPoint 0 0 ]} ∅
    (Some (mkPoint 0 0)) view None None.

(** A page without listeners. *)
Definition emptyPage : Page := mkPage [] [].

(** The position lies within the extents of the arrays: the row exists and
    is at least [column + 1] long. *)
Definition inBounds (row column : Z) (matrix : Matrix.Matrix) : bool :=
  match Js.index matrix row with
  | Some r => (0 <=? column) && (column <? Z.of_nat (length r))
  | None => false
  end.

(** The integers from [a] to [b], both included, counting towards [b]. *)
Definition span (a b : Z) : list Z :=
  (λ i : nat, if b <? a then a - Z.of_nat i else a + Z.of_nat i)
    <$> seq 0 (S (Z.to_nat (Z.abs (b - a)))).

(** The rectangle between two corners, row by row from the row of [start]
    to the row of [end_], each row from the column of [start] to the column
    of [end_]. *)
Definition rectangle (end_ start : Point) : list Point :=
  r ← span (row start) (row end_);
  (λ c, mkPoint r c) <$> span (column start) (column end_).

(** The extents of a matrix: the length of each row, [None] where the row is
    missing.  [getSize] reads its answer off the extents. *)
Definition shape (matrix : Matrix.Matrix) : list (option nat) :=
  (λ r : option Matrix.Row, length <$> r) <$> matrix.

(** Where a copied point lands: moved by the active point [a] minus the
    minimal corner. *)
Definition translate (minRow minColumn : Z) (a p : Point) : Point :=
  {| row := row p - minRow + row a;
     column := column p - minColumn + column a |}.

(** Whether the landing place of [p] passes the test of [handlePaste]. *)
Definition lands (prevState : StoreState) (minRow minColumn : Z) (a p : Point)
  : bool :=
  let target := translate minRow minColumn a p in
  Matrix.has (row target) (column target) (data prevState).

(** What holds of the accumulator once the points [l] have been folded. *)
Definition pasted (prevState : StoreState) (minRow minColumn : Z) (a : Point)
    (l : list Point) (acc : Pasting) : Prop :=
  let translate := translate minRow minColumn a in
  let lands := lands prevState minRow minColumn a in
  (∀ q, q ∈ acc_selected acc
        ↔ ∃ p, p ∈ l ∧ q = translate p ∧ lands p = true)
  ∧ (∀ p, p ∈ l → lands p = true →
          Matrix.get (row (translate p)) (column (translate p)) (acc_data acc)
          = Matrix.get (row p) (column p) (data prevState))
  ∧ (∀ r c, (∀ p, p ∈ l → lands p = true → translate p ≠ mkPoint r c) →
            Matrix.get r c (acc_data acc) = Matrix.get r c (data prevState))
  ∧ shape (acc_data acc) = shape (data prevState).

(** [m] is the least coordinate along [field] among the points of [set]. *)
Definition isMinimum (set : gset Point) (field : PointSet.Field) (m : Z)
  : Prop :=
  (∀ p, p ∈ set → m ≤ PointSet.coordinate field p)
  ∧ ∃ p, p ∈ set ∧ PointSet.coordinate field p = m.

(** Two rows of cells; the first row is copied and the active cell is the
    first cell of the second row. *)
Definition pasteOverCells : StoreState :=
  mkState [Some [Some cellA; Some cellB]; Some [Some cellB; Some cellB]]
    ∅ {[ mkPoint 0 0; mkPoint 0 1 ]} (Some (mkPoint 1 0)) view None None.

(** The same, except that the second row holds no cells yet. *)
Definition pasteOverBlanks : StoreState :=
  mkState [Some [Some cellA; Some cellB];
           Some [Some Js.Undefined; Some Js.Undefined]]
    ∅ {[ mkPoint 0 0; mkPoint 0 1 ]} (Some (mkPoint 1 0)) view None None.

(** A heap holding the sheet with "A" and "B": the row at address 1, the
    matrix at address 2. *)
Definition heapAB : gmap positive Heap.object :=
  <[2%positive := Heap.Rows [Some 1%positive]]>
    (<[1%positive := Heap.Cells [Some cellA; Some cellB]]> ∅).

(** The formula cell and the two parser answers of the scenarios. *)
Definition formulaCell : Formula.CellBase := Formula.mkCell (Js.Str "=TRUE()").
Definition parsesToTrue (formula : string) : Formula.Parsed :=
  Formula.mkParsed (Js.Bool true) Js.Null.
Definition parsesToError (formula : string) : Formula.Parsed :=
  Formula.mkParsed Js.Null (Js.Str "#REF!").

(** The test [cell || cell === undefined] that opens [componentDidUpdate]. *)
Definition shown (cell : Js.value) : bool :=
  Js.truthy cell || Js.strict_eq cell Js.Undefined.

(** The commit made on leaving edit mode, given the snapshot and the cell
    just before the mode changed. *)
Definition committed (snapshot before : Js.value) : list ActiveCell.Call :=
  if Js.truthy before && negb (Js.strict_eq before snapshot)
  then [ActiveCell.commit
          [ {| ActiveCell.prevCell := snapshot;
               ActiveCell.nextCell := before |} ]]
  else [].

(** The session of the scenario: the cell holds "X" when edit mode is
    entered and "Y" when it is left. *)
Definition cellX : Js.value := Js.Obj 3 [("value", Js.Str "X")].
Definition cellY : Js.value := Js.Obj 4 [("value", Js.Str "Y")].

Definition sessionXY : list ActiveCell.Props :=
  [ActiveCell.mkProps cellX (Some edit);
   ActiveCell.mkProps cellY (Some edit);
   ActiveCell.mkProps cellY (Some view)].

(** A session in which the cell is [null] just before edit mode is left. *)
Definition sessionXNull : list ActiveCell.Props :=
  [ActiveCell.mkProps cellX (Some edit);
   ActiveCell.mkProps Js.Null (Some edit);
   ActiveCell.mkProps Js.Undefined (Some view)].

(** A host for which every cell has one dependent cell. *)
Definition oneDependent (cell : Js.value) : list Point := [mkPoint 0 1].

(** The dependent points a call hands over. *)
Definition dependents (call : ActiveCell.Call) : list Point :=
  match call with
  | ActiveCell.commit _ => []
  | ActiveCell.setCellData _ _ bindings => bindings
  end.

(** The step of the fold in [toMatrix]. *)
Definition keep (data : Matrix.Matrix) (acc : Matrix.Matrix) (p : Point)
  : Matrix.Matrix :=
  Matrix.set (row p) (column p) (Matrix.get (row p) (column p) data) acc.

(** A matrix of at most [R] rows, each at most [W] long. *)
Definition within (R W : nat) (m : Matrix.Matrix) : Prop :=
  (length m ≤ R)%nat
  ∧ Forall (λ slot : option Matrix.Row,
              ∀ cells, slot = Some cells → (length cells ≤ W)%nat) m.

(** The cells [Matrix.filter] keeps, as plain lists. *)
Definition kept (m : Matrix.Matrix) : list (list Js.value) :=
  List.filter (λ row, negb (length row =? 0)%nat)
    (omap (option_map (λ cells : Matrix.Row,
                         List.filter Js.truthy (omap id cells))) m).

(** A dense row, respectively matrix, holding the given values. *)
Definition denseRow (row : list Js.value) : option Matrix.Row :=
  Some (Some <$> row).
Definition dense (rows : list (list Js.value)) : Matrix.Matrix :=
  denseRow <$> rows.

(** The text a value contributes to the clipboard. *)
Definition displayed (v : Js.value) : string := Js.join_item (Some v).

(** The rows joined the way [Matrix.join] does by default. *)
Definition commaSeparated (rows : list (list Js.value)) : string :=
  String.concat Js.newline
    ((λ row, String.concat ", " (displayed <$> row)) <$> rows).

(** The rows joined the way the clipboard format asks for. *)
Definition tabSeparated (rows : list (list Js.value)) : string :=
  String.concat Js.newline
    ((λ row, String.concat Js.tab (displayed <$> row)) <$> rows).

(** The selected cells copy keeps: for each row below [R], the truthy cells
    of the data at the selected columns below [W], in column order; rows in
    which none is found are left out. *)
Definition selectedCells (set : gset Point) (data : Matrix.Matrix)
    (R W : nat) : list (list Js.value) :=
  List.filter (λ row, negb (length row =? 0)%nat)
    ((λ r : nat,
        List.filter Js.truthy
          ((λ c : nat,
              if bool_decide (mkPoint (Z.of_nat r) (Z.of_nat c) ∈ set)
              then Matrix.get (Z.of_nat r) (Z.of_nat c) data
              else Js.Undefined) <$> seq 0 W))
       <$> seq 0 R).

(** Whether [handleCopy] gets to call [copy]. *)
Definition permitted (permissions : option Js.value) : bool :=
  match permissions with
  | Some readClipboardStatus => Js.truthy readClipboardStatus
  | None => true
  end.

(** Cells of the shape [getValue] can read: [{ data: { value } }]. *)
Definition wrappedA : Js.value :=
  Js.Obj 5 [("data", Js.Obj 6 [("value", Js.Str "A")])].
Definition wrappedB : Js.value :=
  Js.Obj 7 [("data", Js.Obj 8 [("value", Js.Str "B")])].

(** The two cells (0,0) and (0,1) selected, over cells whose [value] is
    "A" and "B", and over cells that wrap those in [data]. *)
Definition copyAB : StoreState :=
  mkState sheetAB {[ mkPoint 0 0; mkPoint 0 1 ]} ∅ (Some (mkPoint 0 0))
    view None None.
Definition copyWrappedAB : StoreState :=
  mkState [Some [Some wrappedA; Some wrappedB]]
    {[ mkPoint 0 0; mkPoint 0 1 ]} ∅ (Some (mkPoint 0 0)) view None None.

(** The same selection over the bare strings "A" and "B". *)
Definition copyRawAB : StoreState :=
  mkState [Some [Some (Js.Str "A"); Some (Js.Str "B")]]
    {[ mkPoint 0 0; mkPoint 0 1 ]} ∅ (Some (mkPoint 0 0)) view None None.

(** Three cells selected, the middle one missing. *)
Definition copyWithGap : StoreState :=
  mkState [Some [Some wrappedA; Some Js.Undefined; Some wrappedB]]
    {[ mkPoint 0 0; mkPoint 0 1; mkPoint 0 2 ]} ∅ (Some (mkPoint 0 0))
    view None None.

(** The value stored at a position: [None] where the row is missing, the
    position lies outside the row or the slot is a hole. *)
Definition stored (i j : Z) (m : Matrix.Matrix) : option Js.value :=
  cells ← Js.index m i; Js.index cells j.

(** What [Matrix.filter] produces: rows that are present and not empty, of
    slots that hold a value the predicate accepts. *)
Definition sifted (f : Js.value → bool) (m : Matrix.Matrix) : Prop :=
  Forall (λ slot : option Matrix.Row,
            ∃ cells, slot = Some cells ∧ cells ≠ []
                     ∧ Forall (λ s, ∃ v, s = Some v ∧ f v = true) cells) m.

(** A matrix of three rows: a cell, a hole and [undefined]; a missing row;
    the number 0 and a cell. *)
Definition patchy : Matrix.Matrix :=
  [Some [Some cellA; None; Some Js.Undefined];
   None;
   Some [Some (Js.Num 0); Some cellB]].

(** [x] is met when counting from [s] up or down to [e], [e] itself left
    out; when there is nothing to count, [s = e], only [s] qualifies. *)
Definition towards (s e x : Z) : Prop :=
  if s =? e then x = s else s ≤ x < e ∨ e < x ≤ s.

(** The active cell, if any, and every selected point lie on cells that
    [Matrix.has] finds in the data. *)
Definition settled (state : StoreState) : Prop :=
  (∀ a, active state = Some a →
        Matrix.has (row a) (column a) (data state) = true)
  ∧ (∀ p, p ∈ selected state →
          Matrix.has (row p) (column p) (data state) = true).

(** The state with its mode replaced. *)
Definition inMode (m : Mode) (state : StoreState) : StoreState :=
  {| data := data state;
     selected := selected state;
     copied := copied state;
     active := active state;
     mode := m;
     cut := cut state;
     hasPasted := hasPasted state |}.

(** Something is copied and there is no active point. *)
Definition copiedButInactive : StoreState :=
  mkState sheetAB ∅ {[ mkPoint 0 0 ]} None view None None.

(** * Properties *)

(** ** Arrays *)

Section ArrayFacts.
Context {A : Type}.
Implicit Types (arr : Js.array A) (i j : Z) (x : A).

Lemma index_negative arr i : i < 0 → Js.index arr i = None.
Proof. intros Hi. unfold Js.index. by rewrite (proj2 (Z.ltb_lt _ _) Hi). Qed.

Lemma index_nat arr (n : nat) :
  Js.index arr (Z.of_nat n) = mjoin (arr !! n).
Proof.
  unfold Js.index. rewrite (proj2 (Z.ltb_ge _ _)) by lia. by rewrite Nat2Z.id.
Qed.

Lemma index_beyond arr i : Z.of_nat (length arr) ≤ i → Js.index arr i = None.
Proof.
  intros Hi. unfold Js.index. rewrite (proj2 (Z.ltb_ge _ _)) by lia.
  rewrite lookup_ge_None_2; [done | lia].
Qed.

Lemma index_Some_lt arr i x :
  Js.index arr i = Some x → 0 ≤ i < Z.of_nat (length arr).
Proof.
  intros Hx. destruct (decide (i < 0)) as [Hn | Hn].
  { by rewrite index_negative in Hx. }
  destruct (decide (Z.of_nat (length arr) ≤ i)) as [Hb | Hb].
  { by rewrite index_beyond in Hx. }
  lia.
Qed.

Lemma length_assign arr i x :
  length (Js.assign i x arr)
  = if i <? 0 then length arr else (length arr `max` S (Z.to_nat i))%nat.
Proof.
  unfold Js.assign. destruct (i <? 0) eqn:Hi; [done |].
  destruct (Z.to_nat i <? length arr)%nat eqn:Hlt.
  - apply Nat.ltb_lt in Hlt. rewrite length_insert. lia.
  - apply Nat.ltb_ge in Hlt.
    rewrite !length_app, length_replicate. simpl. lia.
Qed.

Lemma assign_lookup_eq arr (n : nat) x :
  Js.assign (Z.of_nat n) x arr !! n = Some (Some x).
Proof.
  unfold Js.assign. rewrite (proj2 (Z.ltb_ge _ _)) by lia. rewrite Nat2Z.id.
  destruct (n <? length arr)%nat eqn:Hlt.
  - apply Nat.ltb_lt in Hlt. by rewrite list_lookup_insert_eq.
  - apply Nat.ltb_ge in Hlt.
    rewrite lookup_app_r by done.
    rewrite lookup_app_r by (rewrite length_replicate; lia).
    rewrite length_replicate. by replace (n - length arr - (n - length arr))%nat with 0%nat by lia.
Qed.

Lemma assign_lookup_ne arr (n m : nat) x :
  n ≠ m → mjoin (Js.assign (Z.of_nat n) x arr !! m) = mjoin (arr !! m).
Proof.
  intros Hne. unfold Js.assign.
  rewrite (proj2 (Z.ltb_ge _ _)) by lia. rewrite Nat2Z.id.
  destruct (n <? length arr)%nat eqn:Hlt.
  - by rewrite list_lookup_insert_ne.
  - apply Nat.ltb_ge in Hlt.
    destruct (decide (m < length arr)%nat) as [Hm | Hm].
    { by rewrite lookup_app_l. }
    rewrite (lookup_ge_None_2 arr m) by lia.
    rewrite lookup_app_r by lia.
    destruct (decide (m < n)%nat) as [Hmn | Hmn].
    + rewrite lookup_app_l by (rewrite length_replicate; lia).
      rewrite lookup_replicate_2; [done | lia].
    + rewrite lookup_ge_None_2; [done |].
      rewrite length_app, length_replicate. simpl. lia.
Qed.

Lemma index_assign_eq arr i x : 0 ≤ i → Js.index (Js.assign i x arr) i = Some x.
Proof.
  intros Hi. rewrite <- (Z2Nat.id i) by done.
  by rewrite index_nat, assign_lookup_eq.
Qed.

Lemma index_assign_ne arr i j x :
  i ≠ j → Js.index (Js.assign i x arr) j = Js.index arr j.
Proof.
  intros Hne. destruct (decide (j < 0)) as [Hj | Hj].
  { by rewrite !index_negative. }
  destruct (decide (i < 0)) as [Hi | Hi].
  { unfold Js.assign. by rewrite (proj2 (Z.ltb_lt _ _) Hi). }
  rewrite <- (Z2Nat.id i), <- (Z2Nat.id j) by lia.
  rewrite !index_nat. apply assign_lookup_ne. lia.
Qed.

End ArrayFacts.

Lemma index_spread (r : Js.array Js.value) i :
  default Js.Undefined (Js.index (Js.spread r) i)
  = default Js.Undefined (Js.index r i).
Proof.
  unfold Js.index, Js.spread. destruct (i <? 0); [done |].
  rewrite list_lookup_fmap. by destruct (r !! Z.to_nat i) as [[?|]|].
Qed.

Lemma length_spread (r : Js.array Js.value) : length (Js.spread r) = length r.
Proof. unfold Js.spread. by rewrite length_fmap. Qed.

(** ** [get], [set] and [has] *)

Lemma get_set_eq row column v matrix :
  0 ≤ row → 0 ≤ column →
  Matrix.get row column (Matrix.set row column v matrix) = v.
Proof.
  intros Hr Hc. unfold Matrix.get, Matrix.set.
  rewrite index_assign_eq by done. by rewrite index_assign_eq.
Qed.

Lemma get_set_ne row column row' column' v matrix :
  0 ≤ row → 0 ≤ column → (row, column) ≠ (row', column') →
  Matrix.get row' column' (Matrix.set row column v matrix)
  = Matrix.get row' column' matrix.
Proof.
  intros Hr Hc Hne. unfold Matrix.get, Matrix.set.
  destruct (decide (row = row')) as [<- | Hrow].
  - rewrite index_assign_eq by done.
    rewrite index_assign_ne by congruence.
    destruct (Js.index matrix row) as [r|]; [apply index_spread |].
    unfold Js.index. destruct (column' <? 0); [done |]. by rewrite lookup_nil.
  - by rewrite index_assign_ne.
Qed.

Lemma has_truthy_get row column matrix :
  Matrix.has row column matrix = Js.truthy (Matrix.get row column matrix).
Proof.
  unfold Matrix.has, Matrix.get. by destruct (Js.index matrix row).
Qed.

Lemma has_iff row column matrix :
  Matrix.has row column matrix = true
  ↔ ∃ r v, Js.index matrix row = Some r ∧ Js.index r column = Some v
           ∧ Js.truthy v = true.
Proof.
  unfold Matrix.has. split.
  - destruct (Js.index matrix row) as [r|]; [| done].
    destruct (Js.index r column) as [v|] eqn:Hv; [| done].
    intros Ht. by exists r, v.
  - intros (r & v & -> & -> & Ht). done.
Qed.

Lemma has_in_bounds row column matrix :
  Matrix.has row column matrix = true →
  0 ≤ row < Z.of_nat (length matrix)
  ∧ ∃ r, Js.index matrix row = Some r ∧ 0 ≤ column < Z.of_nat (length r).
Proof.
  intros (r & v & Hr & Hv & _)%has_iff. split.
  - by eapply index_Some_lt.
  - exists r. split; [done |]. by eapply index_Some_lt.
Qed.

(** ** Arrow keys *)

Lemma from_singleton (p : Point) : PointSet.from [p] = {[ p ]}.
Proof. unfold PointSet.from. simpl. apply (right_id_L ∅ (∪)). Qed.

Lemma go_active rowDelta columnDelta state event a :
  active state = Some a →
  go rowDelta columnDelta state event
  = Returns (Some (
      let target :=
        {| row := row a + rowDelta; column := column a + columnDelta |} in
      if Matrix.has (row target) (column target) (data state)
      then moveTo target else resetMode)).
Proof.
  intros Ha. unfold go. rewrite Ha. simpl.
  destruct (Matrix.has _ _ _); simpl; [| done].
  unfold moveTo. by rewrite from_singleton.
Qed.

Lemma go_inactive rowDelta columnDelta state event :
  active state = None → go rowDelta columnDelta state event = Returns None.
Proof. intros Ha. unfold go. by rewrite Ha. Qed.

Lemma setState_resetMode state :
  mode state = view → setState resetMode state = state.
Proof.
  destruct state as [d s c a m ct hp]. simpl. intros ->.
  unfold setState. simpl. f_equal; by destruct a || by destruct ct || by destruct hp.
Qed.

Section KeyFacts.
Variable updateData : Matrix.Matrix → Point → Js.value → Matrix.Matrix.
Variable extendEdge shrinkEdge :
  gset Point → PointSet.Field → Z → gset Point.
Variable allocate : Matrix.Matrix → positive.

#[local] Abbreviation keyDown :=
  (handleKeyDown updateData extendEdge shrinkEdge allocate).

Lemma keyDownHandlers_direction k rowDelta columnDelta :
  direction k = Some (rowDelta, columnDelta) →
  keyDownHandlers updateData allocate k = Some (go rowDelta columnDelta).
Proof.
  unfold direction, keyDownHandlers.
  repeat (destruct (String.eqb k _); [by intros [= <- <-] |]). done.
Qed.

(** C3, as the code has it: in view mode with an active cell, an arrow key
    or Tab moves to the target when [Matrix.has] holds for it, making it the
    active cell and the only selected one; otherwise nothing changes: the
    active cell and the selection stay as they are and the mode stays
    "view". *)
Theorem arrow_key_in_view_mode state a k rowDelta columnDelta :
  mode state = view →
  active state = Some a →
  direction k = Some (rowDelta, columnDelta) →
  let target :=
    {| row := row a + rowDelta; column := column a + columnDelta |} in
  dispatch keyDown state (mkEvent k false)
  = Returns
      (if Matrix.has (row target) (column target) (data state)
       then {| data := data state;
               selected := {[ target ]};
               copied := copied state;
               active := Some target;
               mode := view;
               cut := cut state;
               hasPasted := hasPasted state |}
       else state).
Proof.
  intros Hmode Ha Hk target. unfold dispatch, handleKeyDown.
  rewrite Hmode. simpl. rewrite (keyDownHandlers_direction _ _ _ Hk).
  rewrite (go_active _ _ _ _ _ Ha). simpl. fold target.
  destruct (Matrix.has _ _ _).
  - unfold setState, moveTo. simpl. by destruct (cut state), (hasPasted state).
  - by rewrite setState_resetMode.
Qed.

End KeyFacts.

(** *** On a sheet of one row *)

Lemma arrow_key_in_view_mode_witness :
  dispatch keyDownAB atOrigin (mkEvent "ArrowRight" false)
  = Returns (mkState sheetAB {[ mkPoint 0 1 ]} ∅ (Some (mkPoint 0 1))
               view None None).
Proof.
  exact (arrow_key_in_view_mode writeCell keepEdge keepEdge firstAddress
           atOrigin (mkPoint 0 0) "ArrowRight" 0 1
           eq_refl eq_refl eq_refl).
Defined.

(** C3 as stated fails.  With the target out of bounds the selection is
    not reset to the active cell alone; and a target within the bounds
    whose entry is not truthy does not become the active cell. *)
Lemma arrow_out_of_bounds_keeps_selection :
  (Matrix.has 0 2 (data atLastColumn) = false
   ∧ ∃ state',
       dispatch keyDownAB atLastColumn (mkEvent "ArrowRight" false)
       = Returns state'
       ∧ active state' = Some (mkPoint 0 1)
       ∧ selected state' ≠ {[ mkPoint 0 1 ]})
  ∧ (inBounds 0 1 (data besideBlank) = true
     ∧ ∃ state',
         dispatch keyDownAB besideBlank (mkEvent "ArrowRight" false)
         = Returns state'
         ∧ active state' = Some (mkPoint 0 0)).
Proof.
  split.
  - split; [reflexivity |]. exists atLastColumn. split; [| split].
    + reflexivity.
    + reflexivity.
    + simpl. intros Heq.
      assert (mkPoint 0 0 ∈ ({[ mkPoint 0 1 ]} : gset Point)) as Hin
        by (rewrite <- Heq; set_solver).
      set_solver.
  - split; [reflexivity |]. exists besideBlank. split; reflexivity.
Qed.

(** ** Keys without an active cell *)

(** Case analysis on the next comparison of the key [k] with a key name. *)
Ltac case_key k :=
  match goal with
  | |- context [String.eqb k ?name] =>
      let E := fresh "E" in
      destruct (String.eqb k name) eqn:E;
      [apply String.eqb_eq in E; try (subst k; congruence) |]
  end.

Section InactiveFacts.
Variable updateData : Matrix.Matrix → Point → Js.value → Matrix.Matrix.
Variable extendEdge shrinkEdge :
  gset Point → PointSet.Field → Z → gset Point.
Variable allocate : Matrix.Matrix → positive.

#[local] Abbreviation keyDown :=
  (handleKeyDown updateData extendEdge shrinkEdge allocate).

(** The handlers that test [state.active] leave the state alone: the arrow
    keys, Tab and Backspace in view mode, Tab and Enter in edit mode. *)
Lemma guarded_keys_inactive state k :
  active state = None →
  (mode state = view ∧ k ≠ "Enter" ∨ mode state = edit ∧ k ≠ "Escape") →
  dispatch keyDown state (mkEvent k false) = Returns state.
Proof.
  intros Ha Hk. unfold dispatch, handleKeyDown. simpl.
  destruct Hk as [[-> Hk] | [-> Hk]].
  - unfold keyDownHandlers.
    repeat case_key k; try (by rewrite go_inactive); by rewrite ?Ha.
  - unfold editKeyDownHandlers, keyDownHandlers. simpl.
    repeat case_key k; try (by rewrite go_inactive); done.
Qed.

(** C8 at the inputs where the code departs from it: on a freshly created
    store, which has no active cell, Enter switches the mode to "edit", and
    Shift with an arrow key throws instead of returning. *)
Theorem enter_and_shift_arrow_without_active_cell sheet :
  active (initialState sheet) = None
  ∧ mode (initialState sheet) = view
  ∧ dispatch keyDown (initialState sheet) (mkEvent "Enter" false)
    = Returns (mkState sheet ∅ ∅ None edit None None)
  ∧ dispatch keyDown (initialState sheet) (mkEvent "ArrowUp" true) = Throws
  ∧ dispatch keyDown (initialState sheet) (mkEvent "ArrowDown" true) = Throws
  ∧ dispatch keyDown (initialState sheet) (mkEvent "ArrowLeft" true) = Throws
  ∧ dispatch keyDown (initialState sheet) (mkEvent "ArrowRight" true) = Throws.
Proof. repeat split. Qed.

End InactiveFacts.

(** ** Unmounting *)

Lemma filter_other_instance (instance : nat) (l : list nat) :
  List.filter (λ i, (i =? instance)%nat)
    (List.filter (λ i, negb (i =? instance)%nat) l) = [].
Proof.
  induction l as [| x l IH]; [done |]. simpl.
  destruct (x =? instance)%nat eqn:Hx; simpl; [done |]. by rewrite Hx.
Qed.

(** C7 on the code: unmounting releases the store subscription and nothing
    else, so the three document listeners an instance added at mount are all
    still registered after its unmount, whatever else is on the page. *)
Theorem unmount_leaves_document_listeners instance page :
  let page' := componentWillUnmount instance (componentDidMount instance page) in
  documentListeners page'
  = documentListeners page
      ++ [("copy", instance); ("cut", instance); ("paste", instance)]
  ∧ List.filter (λ i, (i =? instance)%nat) (storeSubscriptions page') = []
  ∧ listenersOf instance page'
    = (3 + length (List.filter (λ l, (l.2 =? instance)%nat)
                     (documentListeners page)))%nat.
Proof.
  simpl. split; [done |].
  assert (List.filter (λ i, (i =? instance)%nat)
            (storeSubscriptions
               (componentWillUnmount instance
                  (componentDidMount instance page))) = []) as Hsub.
  { unfold componentWillUnmount, componentDidMount. simpl.
    rewrite Nat.eqb_refl. simpl. apply filter_other_instance. }
  split; [exact Hsub |].
  unfold listenersOf. rewrite Hsub. simpl.
  rewrite List.filter_app, length_app. simpl.
  rewrite Nat.eqb_refl. simpl. lia.
Qed.

Example one_instance_mounted_and_unmounted :
  listenersOf 0 (componentWillUnmount 0 (componentDidMount 0 emptyPage))
  = 3%nat.
Proof. reflexivity. Qed.

(** ** [has] is a truthiness test *)

Lemma has_inBounds row column matrix :
  Matrix.has row column matrix = true → inBounds row column matrix = true.
Proof.
  intros (_ & r & Hr & Hc)%has_in_bounds. unfold inBounds. rewrite Hr.
  apply andb_true_iff. split; [apply Z.leb_le | apply Z.ltb_lt]; lia.
Qed.

Lemma out_of_bounds_has row column matrix :
  inBounds row column matrix = false → Matrix.has row column matrix = false.
Proof.
  intros Hb. destruct (Matrix.has row column matrix) eqn:Hh; [| done].
  apply has_inBounds in Hh. congruence.
Qed.

Lemma paste_point_skip prevState minRow minColumn a acc p :
  Matrix.has (row p - minRow + row a) (column p - minColumn + column a)
    (data prevState) = false →
  paste_point prevState minRow minColumn a acc p = acc.
Proof. intros Hh. unfold paste_point. by rewrite Hh. Qed.

Lemma go_blocked rowDelta columnDelta state event a :
  active state = Some a →
  Matrix.has (row a + rowDelta) (column a + columnDelta) (data state) = false →
  go rowDelta columnDelta state event = Returns (Some resetMode).
Proof. intros Ha Hh. rewrite (go_active _ _ _ _ _ Ha). simpl. by rewrite Hh. Qed.

(** C10: [has] holds exactly when the entry at the position exists and is
    truthy.  So once a falsy [v] is stored at a position, [has] denies the
    position although [get] returns [v], and the handlers guarded by [has]
    do there what they do out of bounds: an arrow key aimed at it only
    resets the mode, and a paste aimed at it skips the point. *)
Theorem has_is_truthiness i j v matrix :
  0 ≤ i → 0 ≤ j → Js.truthy v = false →
  (∀ r c m,
     Matrix.has r c m = true
     ↔ ∃ cells x, Js.index m r = Some cells ∧ Js.index cells c = Some x
                  ∧ Js.truthy x = true)
  ∧ Matrix.has i j (Matrix.set i j v matrix) = false
  ∧ Matrix.get i j (Matrix.set i j v matrix) = v
  ∧ (∀ state event a rowDelta columnDelta,
       active state = Some a →
       (data state = Matrix.set i j v matrix
        ∧ row a + rowDelta = i ∧ column a + columnDelta = j
        ∨ inBounds (row a + rowDelta) (column a + columnDelta) (data state)
          = false) →
       go rowDelta columnDelta state event = Returns (Some resetMode))
  ∧ (∀ prevState minRow minColumn a acc p,
       (data prevState = Matrix.set i j v matrix
        ∧ row p - minRow + row a = i
        ∧ column p - minColumn + column a = j
        ∨ inBounds (row p - minRow + row a) (column p - minColumn + column a)
            (data prevState) = false) →
       paste_point prevState minRow minColumn a acc p = acc).
Proof.
  intros Hr Hc Hv.
  assert (Matrix.has i j (Matrix.set i j v matrix) = false)
    as Hhas by (by rewrite has_truthy_get, get_set_eq).
  split; [apply has_iff |]. split; [exact Hhas |].
  split; [by apply get_set_eq |]. split.
  - intros state event a rowDelta columnDelta Ha [(Hd & <- & <-) | Hout].
    + apply (go_blocked _ _ _ _ a); [done |]. by rewrite Hd.
    + apply (go_blocked _ _ _ _ a); [done |]. by apply out_of_bounds_has.
  - intros prevState minRow minColumn a acc p [(Hd & <- & <-) | Hout].
    + apply paste_point_skip. by rewrite Hd.
    + apply paste_point_skip. by apply out_of_bounds_has.
Qed.

Example falsy_values :
  Js.truthy (Js.Str "") = false ∧ Js.truthy (Js.Num 0) = false
  ∧ Js.truthy (Js.Bool false) = false ∧ Js.truthy Js.Null = false.
Proof. repeat split. Qed.

Lemma has_is_truthiness_witness :
  Matrix.has 0 1 (Matrix.set 0 1 (Js.Str "") sheetAB) = false
  ∧ Matrix.get 0 1 (Matrix.set 0 1 (Js.Str "") sheetAB) = Js.Str "".
Proof.
  pose proof (has_is_truthiness 0 1 (Js.Str "") sheetAB
                ltac:(lia) ltac:(lia) eq_refl) as (_ & Hhas & Hget & _).
  exact (conj Hhas Hget).
Defined.

(** ** Ranges *)

Lemma span_single a : span a a = [a].
Proof.
  unfold span. rewrite Z.sub_diag. simpl. rewrite Z.ltb_irrefl.
  f_equal. lia.
Qed.

Lemma sgn_towards a b :
  a ≠ b →
  a < b ∧ Z.sgn (b - a) = 1 ∨ b < a ∧ Z.sgn (b - a) = -1.
Proof.
  intros Hne. destruct (Z.lt_total a b) as [Hlt | [-> | Hgt]]; [| done |].
  - left. split; [done |]. apply Z.sgn_pos. lia.
  - right. split; [done |]. apply Z.sgn_neg. lia.
Qed.

Lemma range_inclusive a b :
  a ≠ b → Util.range (b + Z.sgn (b - a)) a 1 = span a b.
Proof.
  intros Hne. unfold Util.range, span. rewrite Z.div_1_r.
  destruct (sgn_towards a b Hne) as [[Hlt ->] | [Hgt ->]].
  - replace (Z.to_nat (Z.abs (b + 1 - a) + 1 - 1))
      with (S (Z.to_nat (Z.abs (b - a)))) by lia.
    apply list_fmap_ext. intros _ i _.
    rewrite !(proj2 (Z.ltb_ge _ _)) by lia. lia.
  - replace (Z.to_nat (Z.abs (b + -1 - a) + 1 - 1))
      with (S (Z.to_nat (Z.abs (b - a)))) by lia.
    apply list_fmap_ext. intros _ i _.
    rewrite !(proj2 (Z.ltb_lt _ _)) by lia. lia.
Qed.

Lemma elem_of_span a b x : x ∈ span a b ↔ a `min` b ≤ x ≤ a `max` b.
Proof.
  unfold span. rewrite list_elem_of_fmap. split.
  - intros (i & -> & Hi%elem_of_seq). destruct (Z.ltb_spec b a); lia.
  - intros Hx. destruct (Z.ltb_spec b a).
    + exists (Z.to_nat (a - x)). split; [lia |]. apply elem_of_seq. lia.
    + exists (Z.to_nat (x - a)). split; [lia |]. apply elem_of_seq. lia.
Qed.

Lemma head_span a b : head (span a b) = Some a.
Proof. unfold span. simpl. f_equal. destruct (b <? a); lia. Qed.

Lemma last_span a b : last (span a b) = Some b.
Proof.
  unfold span. rewrite fmap_last, seq_S, last_snoc. simpl. f_equal.
  destruct (Z.ltb_spec b a); lia.
Qed.

Lemma flatMap_bind {A B} (l : list A) (f : A → list B) :
  Util.flatMap l f = l ≫= f.
Proof.
  unfold Util.flatMap. induction l as [| x l IH]; [done |].
  simpl. f_equal. exact IH.
Qed.

Lemma inclusiveRange_rectangle endPoint startPoint :
  startPoint ≠ endPoint →
  Matrix.inclusiveRange endPoint startPoint = rectangle endPoint startPoint.
Proof.
  destruct endPoint as [er ec], startPoint as [sr sc]. intros Hne.
  unfold Matrix.inclusiveRange, Matrix.range, rectangle.
  rewrite flatMap_bind. cbn [row column].
  assert (∀ a b, (a =? b + Z.sgn (b - a)) = (a =? b)) as Hsgn.
  { intros a b. destruct (Z.eqb_spec a b) as [-> | Hab].
    - rewrite Z.sub_diag. simpl. rewrite Z.add_0_r. apply Z.eqb_refl.
    - apply Z.eqb_neq.
      destruct (sgn_towards a b Hab) as [[? ->] | [? ->]]; lia. }
  rewrite !Hsgn.
  destruct (Z.eqb_spec sc ec) as [-> | Hc], (Z.eqb_spec sr er) as [-> | Hr];
    cbn [negb].
  - done.
  - rewrite range_inclusive by done. by rewrite span_single.
  - rewrite range_inclusive by done. by rewrite span_single.
  - by rewrite !range_inclusive.
Qed.

Lemma NoDup_span a b : NoDup (span a b).
Proof.
  unfold span. apply NoDup_fmap_2_strong; [| apply NoDup_seq].
  intros i j _ _. destruct (b <? a); lia.
Qed.

Lemma elem_of_rectangle end_ start p :
  p ∈ rectangle end_ start
  ↔ row start `min` row end_ ≤ row p ≤ row start `max` row end_
    ∧ column start `min` column end_ ≤ column p
      ≤ column start `max` column end_.
Proof.
  unfold rectangle. rewrite list_elem_of_bind. split.
  - intros (r & (c & -> & Hc%elem_of_span)%list_elem_of_fmap & Hr%elem_of_span).
    done.
  - intros [Hr Hc]. exists (row p). split; [| by apply elem_of_span].
    apply list_elem_of_fmap. exists (column p).
    split; [by destruct p | by apply elem_of_span].
Qed.

Lemma NoDup_rectangle end_ start : NoDup (rectangle end_ start).
Proof.
  unfold rectangle. apply NoDup_bind; [| | apply NoDup_span].
  - intros r1 r2 p _ _ (c1 & -> & _)%list_elem_of_fmap
      (c2 & [= -> _] & _)%list_elem_of_fmap. done.
  - intros r _. apply NoDup_fmap_2_strong; [| apply NoDup_span].
    by intros c1 c2 _ _ [= ->].
Qed.

Lemma head_rectangle end_ start : head (rectangle end_ start) = Some start.
Proof.
  unfold rectangle.
  destruct (proj1 (head_Some _ _) (head_span (row start) (row end_)))
    as [rs ->].
  destruct (proj1 (head_Some _ _) (head_span (column start) (column end_)))
    as [cs ->].
  by destruct start.
Qed.

Lemma last_rectangle end_ start : last (rectangle end_ start) = Some end_.
Proof.
  unfold rectangle.
  destruct (proj1 (last_Some _ _) (last_span (row start) (row end_)))
    as [rs ->].
  rewrite bind_app, bind_singleton, last_app, fmap_last, last_span.
  by destruct end_.
Qed.

(** C9, for two distinct corners: the inclusive range is the rectangle
    between them, enumerated row by row from the start corner towards the
    end corner.  It holds exactly the points of the rectangle, each once,
    the start corner first and the end corner last. *)
Theorem inclusiveRange_distinct_corners endPoint startPoint :
  startPoint ≠ endPoint →
  let points := Matrix.inclusiveRange endPoint startPoint in
  points = rectangle endPoint startPoint
  ∧ (∀ p, p ∈ points
          ↔ row startPoint `min` row endPoint ≤ row p
              ≤ row startPoint `max` row endPoint
            ∧ column startPoint `min` column endPoint ≤ column p
              ≤ column startPoint `max` column endPoint)
  ∧ NoDup points
  ∧ head points = Some startPoint
  ∧ last points = Some endPoint.
Proof.
  intros Hne points. subst points.
  rewrite (inclusiveRange_rectangle _ _ Hne).
  split; [done |]. split; [apply elem_of_rectangle |].
  split; [apply NoDup_rectangle |].
  split; [apply head_rectangle | apply last_rectangle].
Qed.

Lemma inclusiveRange_distinct_corners_witness :
  Matrix.inclusiveRange (mkPoint 0 0) (mkPoint 1 2)
  = [mkPoint 1 2; mkPoint 1 1; mkPoint 1 0;
     mkPoint 0 2; mkPoint 0 1; mkPoint 0 0].
Proof.
  pose proof (inclusiveRange_distinct_corners (mkPoint 0 0) (mkPoint 1 2)
                ltac:(discriminate)) as [Heq _].
  exact Heq.
Defined.

(** C9 as stated fails when the corners coincide: the enumeration is empty
    and so misses the corner. *)
Lemma inclusiveRange_coincident_corners :
  Matrix.inclusiveRange (mkPoint 0 0) (mkPoint 0 0) = []
  ∧ mkPoint 0 0 ∉ Matrix.inclusiveRange (mkPoint 0 0) (mkPoint 0 0).
Proof. split; [reflexivity |]. apply not_elem_of_nil. Qed.

Lemma inclusiveRange_same_point p : Matrix.inclusiveRange p p = [].
Proof.
  unfold Matrix.inclusiveRange, Matrix.range. simpl.
  rewrite !Z.sub_diag. simpl. rewrite !Z.add_0_r, !Z.eqb_refl. done.
Qed.

(** ** Paste *)

Lemma getSize_shape m m' :
  shape m = shape m' → Matrix.getSize m = Matrix.getSize m'.
Proof.
  intros Hs. unfold Matrix.getSize.
  assert (length m = length m') as ->.
  { apply (f_equal length) in Hs. unfold shape in Hs.
    by rewrite !length_fmap in Hs. }
  f_equal. unfold Js.index. simpl. change (Z.to_nat 0) with 0%nat.
  assert (shape m !! 0%nat = shape m' !! 0%nat) as H0 by (by rewrite Hs).
  unfold shape in H0. rewrite !list_lookup_fmap in H0.
  destruct (m !! 0%nat) as [[r|]|], (m' !! 0%nat) as [[r'|]|];
    simpl in *; congruence.
Qed.

Lemma inBounds_shape r c m m' :
  shape m = shape m' → inBounds r c m = inBounds r c m'.
Proof.
  intros Hs. unfold inBounds, Js.index. destruct (r <? 0); [done |].
  assert (shape m !! Z.to_nat r = shape m' !! Z.to_nat r) as Hr
    by (by rewrite Hs).
  unfold shape in Hr. rewrite !list_lookup_fmap in Hr.
  destruct (m !! Z.to_nat r) as [[x|]|], (m' !! Z.to_nat r) as [[x'|]|];
    simpl in *; congruence.
Qed.

Lemma set_shape r c v m :
  inBounds r c m = true → shape (Matrix.set r c v m) = shape m.
Proof.
  unfold inBounds. destruct (Js.index m r) as [cells|] eqn:Hr; [| done].
  intros [Hc0%Z.leb_le Hc1%Z.ltb_lt]%andb_true_iff.
  pose proof (index_Some_lt _ _ _ Hr) as Hrlt.
  unfold Matrix.set. rewrite Hr.
  set (nextRow := Js.assign c v (Js.spread cells)).
  assert (length nextRow = length cells) as Hlen.
  { unfold nextRow. rewrite length_assign, length_spread.
    rewrite (proj2 (Z.ltb_ge _ _)) by lia. lia. }
  unfold Js.assign.
  rewrite (proj2 (Z.ltb_ge _ _)) by lia.
  rewrite (proj2 (Nat.ltb_lt _ _)) by lia.
  unfold shape. rewrite list_fmap_insert. apply list_insert_id.
  rewrite list_lookup_fmap.
  unfold Js.index in Hr. rewrite (proj2 (Z.ltb_ge _ _)) in Hr by lia.
  destruct (m !! Z.to_nat r) as [[cells'|]|]; simplify_eq/=.
  by rewrite Hlen.
Qed.

Section PasteFacts.
Variable prevState : StoreState.
Variables (minRow minColumn : Z) (a : Point).

#[local] Abbreviation target := (translate minRow minColumn a).
#[local] Abbreviation written := (lands prevState minRow minColumn a).

Lemma translate_inj p q : target p = target q → p = q.
Proof.
  destruct p as [r c], q as [r' c']. unfold translate. simpl.
  intros [= Hr Hc]. f_equal; lia.
Qed.

Lemma paste_point_lands acc p :
  written p = true →
  paste_point prevState minRow minColumn a acc p
  = {| acc_data :=
         Matrix.set (row (target p)) (column (target p))
           (Matrix.get (row p) (column p) (data prevState)) (acc_data acc);
       acc_selected := {[ target p ]} ∪ acc_selected acc |}.
Proof.
  unfold lands, translate. simpl. intros Hl. unfold paste_point.
  by rewrite Hl.
Qed.

Lemma paste_point_misses acc p :
  written p = false → paste_point prevState minRow minColumn a acc p = acc.
Proof. unfold lands, translate. simpl. apply paste_point_skip. Qed.

Lemma pasted_fold l :
  NoDup l →
  pasted prevState minRow minColumn a l
    (foldl (paste_point prevState minRow minColumn a)
       {| acc_data := data prevState; acc_selected := PointSet.from [] |} l).
Proof.
  induction l as [| x l IH] using rev_ind; intros Hnd.
  { unfold pasted. simpl. split_and!; [| | done..].
    - intros q. split; [by intros Hq%not_elem_of_empty |].
      by intros (p & Hp%not_elem_of_nil & _).
    - by intros p Hp%not_elem_of_nil. }
  apply NoDup_app in Hnd as (Hnd & Hx & _).
  specialize (IH Hnd). rewrite foldl_snoc.
  set (acc := foldl _ _ l) in *.
  destruct IH as (Hsel & Hwritten & Hkept & Hshape).
  destruct (written x) eqn:Hlx.
  - rewrite paste_point_lands by done.
    pose proof Hlx as Hb. unfold lands in Hb.
    pose proof (has_in_bounds _ _ _ Hb) as [Hr0 (cells & _ & Hc0)].
    apply has_inBounds in Hb.
    unfold pasted. cbn [acc_data acc_selected]. split_and!.
    + intros q. split.
      * intros [->%elem_of_singleton | (p & Hp & -> & Hlp)%Hsel]%elem_of_union.
        -- exists x. split; [| done]. apply elem_of_app. right. by left.
        -- exists p. split; [| done]. apply elem_of_app. by left.
      * intros (p & [Hp | ->%list_elem_of_singleton]%elem_of_app & -> & Hlp).
        -- apply elem_of_union. right. apply Hsel. by exists p.
        -- apply elem_of_union. left. by apply elem_of_singleton.
    + intros p [Hp | ->%list_elem_of_singleton]%elem_of_app Hlp.
      * rewrite get_set_ne; [by apply Hwritten | lia | lia |].
        intros [= Hr Hc]. apply (Hx p Hp). apply list_elem_of_singleton.
        apply translate_inj. unfold translate. f_equal; lia.
      * apply get_set_eq; lia.
    + intros r c Hfree. rewrite get_set_ne; [| lia | lia |].
      * apply Hkept. intros p Hp. apply Hfree, elem_of_app. by left.
      * intros [= Hr Hc]. apply (Hfree x); [| done |].
        -- apply elem_of_app. right. by left.
        -- unfold translate. f_equal; lia.
    + rewrite set_shape; [done |]. by rewrite (inBounds_shape _ _ _ _ Hshape).
  - rewrite paste_point_misses by done.
    unfold pasted. split_and!.
    + intros q. split.
      * intros (p & Hp & -> & Hlp)%Hsel. exists p. split; [| done].
        apply elem_of_app. by left.
      * intros (p & [Hp | ->%list_elem_of_singleton]%elem_of_app & -> & Hlp);
          [| congruence].
        apply Hsel. by exists p.
    + intros p [Hp | ->%list_elem_of_singleton]%elem_of_app Hlp;
        [by apply Hwritten | congruence].
    + intros r c Hfree. apply Hkept. intros p Hp. apply Hfree, elem_of_app.
      by left.
    + done.
Qed.

End PasteFacts.

Lemma foldl_min xs x :
  (∀ y, y ∈ x :: xs → foldl Z.min x xs ≤ y) ∧ foldl Z.min x xs ∈ x :: xs.
Proof.
  revert x. induction xs as [| z xs IH]; intros x; simpl.
  { split; [| by left]. intros y ->%list_elem_of_singleton. done. }
  destruct (IH (x `min` z)) as [Hle Hin]. split.
  - intros y Hy. assert (foldl Z.min (x `min` z) xs ≤ x `min` z) as Hm
      by (apply Hle; by left).
    apply elem_of_cons in Hy as [-> | [-> | Hy]%elem_of_cons]; [lia | lia |].
    apply Hle. by right.
  - apply elem_of_cons in Hin as [Hm | Hin].
    + rewrite Hm. destruct (Z.min_spec x z) as [[_ ->] | [_ ->]].
      * by left.
      * right. by left.
    + right. by right.
Qed.

Lemma getEdgeValue_minimum set field :
  set ≠ ∅ →
  ∃ m, PointSet.getEdgeValue set field (-1) = Some m ∧ isMinimum set field m.
Proof.
  intros Hne. unfold PointSet.getEdgeValue, isMinimum. simpl.
  destruct (elements set) as [| p ps] eqn:Hel.
  { by apply elements_empty_inv, leibniz_equiv in Hel. }
  simpl. eexists. split; [done |].
  destruct (foldl_min (PointSet.coordinate field <$> ps)
              (PointSet.coordinate field p)) as [Hle Hin].
  rewrite <- fmap_cons, <- Hel in Hle, Hin. split.
  - intros q Hq. apply Hle. apply list_elem_of_fmap. exists q.
    split; [done |]. by apply elem_of_elements.
  - apply list_elem_of_fmap in Hin as (q & Hq & Hin).
    exists q. split; [by apply elem_of_elements | done].
Qed.

(** C1, as the code has it: with an active point and a non-empty copied
    set, paste moves every copied point by the active point minus the
    minimal corner of the copied set.  A target that [Matrix.has] denies,
    in particular every target outside the matrix, is skipped; every other
    target receives the cell of its source point.  No other cell changes,
    the extents of the matrix stay as they were, the selection becomes
    exactly the set of targets written, and afterwards [hasPasted] is true,
    [cut] is false and the mode is "view". *)
Theorem paste_translates_copied edgeOfNothing state a :
  active state = Some a →
  copied state ≠ ∅ →
  ∃ minRow minColumn state',
    isMinimum (copied state) PointSet.Row minRow
    ∧ isMinimum (copied state) PointSet.Column minColumn
    ∧ handlePaste edgeOfNothing state = Returns state'
    ∧ (let target := translate minRow minColumn a in
       let written p :=
         Matrix.has (row (target p)) (column (target p)) (data state) in
       (∀ p, inBounds (row (target p)) (column (target p)) (data state)
             = false → written p = false)
       ∧ (∀ p, p ∈ copied state → written p = false →
               (target p ∉ selected state')
               ∧ Matrix.get (row (target p)) (column (target p)) (data state')
                 = Matrix.get (row (target p)) (column (target p))
                     (data state))
       ∧ (∀ p, p ∈ copied state → written p = true →
               Matrix.get (row (target p)) (column (target p)) (data state')
               = Matrix.get (row p) (column p) (data state))
       ∧ (∀ r c,
            (∀ p, p ∈ copied state → written p = true →
                  target p ≠ mkPoint r c) →
            Matrix.get r c (data state') = Matrix.get r c (data state))
       ∧ (∀ q, q ∈ selected state'
               ↔ ∃ p, p ∈ copied state ∧ q = target p ∧ written p = true))
    ∧ shape (data state') = shape (data state)
    ∧ Matrix.getSize (data state') = Matrix.getSize (data state)
    ∧ hasPasted state' = Some true
    ∧ cut state' = Some false
    ∧ mode state' = view
    ∧ active state' = Some a
    ∧ copied state' = copied state.
Proof.
  intros Ha Hne.
  destruct (getEdgeValue_minimum _ PointSet.Row Hne) as (minRow & HminR & HR).
  destruct (getEdgeValue_minimum _ PointSet.Column Hne)
    as (minColumn & HminC & HC).
  pose proof (pasted_fold state minRow minColumn a (elements (copied state))
                (NoDup_elements _)) as (Hsel & Hwritten & Hkept & Hshape).
  set (folded := foldl _ _ _) in *.
  exists minRow, minColumn,
    (setState
       (mkPatch (Some (acc_data folded)) (Some (acc_selected folded)) None None
          (Some view) (Some false) (Some true)) state).
  split; [done |]. split; [done |]. split.
  { unfold handlePaste. by rewrite HminR, HminC, Ha. }
  split; [| split; [exact Hshape |]; split; [by apply getSize_shape |];
            simpl; by rewrite ?Ha].
  cbn [setState data selected patch_data patch_selected default].
  split_and!.
  - intros p. apply out_of_bounds_has.
  - intros p Hp Hw. split.
    + intros (p' & _ & ->%translate_inj & Hw')%Hsel.
      unfold lands in Hw'. congruence.
    + apply Hkept. intros p' _ Hw' ->%translate_inj.
      unfold lands in Hw'. congruence.
  - intros p Hp. apply Hwritten. by apply elem_of_elements.
  - intros r c Hfree. apply Hkept. intros p Hp. apply Hfree.
    by apply elem_of_elements.
  - intros q. rewrite Hsel. split; intros (p & Hp & Hq); exists p;
      (split; [by apply elem_of_elements | done]).
Qed.

Lemma copied_pasteOverCells : copied pasteOverCells ≠ ∅.
Proof.
  intros Heq. assert (mkPoint 0 0 ∈ copied pasteOverCells) as Hin
    by (simpl; set_solver).
  rewrite Heq in Hin. by apply not_elem_of_empty in Hin.
Qed.

Lemma paste_translates_copied_witness :
  active pasteOverCells = Some (mkPoint 1 0)
  ∧ copied pasteOverCells ≠ ∅
  ∧ ∃ state',
      handlePaste Throws pasteOverCells = Returns state'
      ∧ shape (data state') = shape (data pasteOverCells)
      ∧ hasPasted state' = Some true
      ∧ cut state' = Some false
      ∧ mode state' = view.
Proof.
  split; [reflexivity |]. split; [exact copied_pasteOverCells |].
  destruct (paste_translates_copied Throws pasteOverCells (mkPoint 1 0)
              eq_refl copied_pasteOverCells)
    as (minRow & minColumn & state' & _ & _ & Hpaste & _ & Hshape & _
        & Hpasted & Hcut & Hmode & _).
  exists state'. exact (conj Hpaste (conj Hshape (conj Hpasted (conj Hcut Hmode)))).
Defined.

(** The scenario of the specification: pasting "A" and "B" one row down. *)
Example paste_one_row_down :
  ∃ state',
    handlePaste Throws pasteOverCells = Returns state'
    ∧ Matrix.get 1 0 (data state') = cellA
    ∧ Matrix.get 1 1 (data state') = cellB
    ∧ elements (selected state') = [mkPoint 1 0; mkPoint 1 1].
Proof. eexists. split; [vm_compute; reflexivity |]. repeat split. Qed.

(** C1 as stated fails: both targets, (1,0) and (1,1), are within the
    matrix, yet neither receives the copied cell, because the entries they
    hold are not truthy. *)
Lemma paste_skips_blank_cells_in_bounds :
  inBounds 1 0 (data pasteOverBlanks) = true
  ∧ inBounds 1 1 (data pasteOverBlanks) = true
  ∧ ∃ state',
      handlePaste Throws pasteOverBlanks = Returns state'
      ∧ Matrix.get 1 0 (data state') = Js.Undefined
      ∧ Matrix.get 1 0 (data state') ≠ cellA
      ∧ Matrix.get 1 1 (data state') ≠ cellB
      ∧ data state' = data pasteOverBlanks
      ∧ elements (selected state') = [].
Proof.
  split; [reflexivity |]. split; [reflexivity |].
  eexists. split; [vm_compute; reflexivity |].
  repeat split; try discriminate. 
Qed.

(** ** [set] does not touch the arrays it is given *)

Section HeapFacts.
Import Heap.
Implicit Types (h : gmap positive Heap.object) (M : Matrix.Matrix).

Lemma rowAt_weaken h h' slot y :
  h ⊆ h' → rowAt h slot = Some y → rowAt h' slot = Some y.
Proof.
  intros Hsub. destruct slot as [r|]; [| done]. simpl.
  destruct (h !! r) as [[cells|]|] eqn:Hr; try done.
  by rewrite (lookup_weaken _ _ _ _ Hr Hsub).
Qed.

Lemma rowAt_index h rows M i :
  mapM (rowAt h) rows = Some M →
  match Js.index rows i with
  | Some r => ∃ cells, h !! r = Some (Cells cells) ∧ Js.index M i = Some cells
  | None => Js.index M i = None
  end.
Proof.
  intros HM%mapM_Some. unfold Js.index. destruct (i <? 0); [done |].
  destruct (rows !! Z.to_nat i) as [slot|] eqn:Hslot.
  - destruct (Forall2_lookup_l _ _ _ _ _ HM Hslot) as (y & -> & Hy).
    destruct slot as [r|]; simpl in *; [| by simplify_eq].
    destruct (h !! r) as [[cells|]|]; simplify_eq. by exists cells.
  - simpl. apply lookup_ge_None in Hslot.
    rewrite (Forall2_length _ _ _ HM) in Hslot.
    by rewrite (lookup_ge_None_2 _ _ Hslot).
Qed.

Lemma Forall2_assign {A B} (P : option A → option B → Prop) l k i x y :
  Forall2 P l k → P (Some x) (Some y) → P None None →
  Forall2 P (Js.assign i x l) (Js.assign i y k).
Proof.
  intros Hlk Hxy Hhole. unfold Js.assign. destruct (i <? 0); [done |].
  rewrite <- (Forall2_length _ _ _ Hlk).
  destruct (Z.to_nat i <? length l)%nat.
  - by apply Forall2_insert.
  - apply Forall2_app; [done |]. apply Forall2_app.
    + by apply Forall2_replicate.
    + by constructor.
Qed.

(** The heap-level [get] computes [Matrix.get] of the stored matrix. *)
Lemma heap_get_refines row column matrix h M :
  matrixAt h matrix = Some M →
  Heap.get row column matrix h = Some (Matrix.get row column M).
Proof.
  unfold matrixAt, Heap.get, Matrix.get.
  destruct (h !! matrix) as [[cells | rows]|]; try done.
  intros HM. pose proof (rowAt_index _ _ _ row HM) as Hrow.
  destruct (Js.index rows row) as [r|].
  - destruct Hrow as (cells & -> & ->). done.
  - by rewrite Hrow.
Qed.

(** The heap-level [set] allocates two new arrays, stores in those alone
    and returns the address of a matrix that reads as [Matrix.set] of the
    matrix it was given. *)
Lemma heap_set_refines row column v matrix h M :
  matrixAt h matrix = Some M →
  ∃ nextMatrix h',
    Heap.set row column v matrix h = Some (nextMatrix, h')
    ∧ h ⊆ h'
    ∧ h !! nextMatrix = None
    ∧ matrixAt h' nextMatrix = Some (Matrix.set row column v M).
Proof.
  unfold matrixAt, Heap.set.
  destruct (h !! matrix) as [[| rows]|] eqn:Hm; try done.
  intros HM. pose proof (rowAt_index _ _ _ row HM) as Hrow.
  set (copy := match Js.index M row with
               | Some r => Js.spread r
               | None => []
               end).
  assert (match Js.index rows row with
          | Some r => match h !! r with
                      | Some (Cells cells) => Some (Js.spread cells)
                      | _ => None
                      end
          | None => Some []
          end = Some copy) as ->.
  { unfold copy. destruct (Js.index rows row) as [r|].
    - by destruct Hrow as (cells & -> & ->).
    - by rewrite Hrow. }
  simpl. unfold allocate, assignCell.
  set (nextRow := fresh (dom h)).
  assert (h !! nextRow = None) as HnextRow
    by apply not_elem_of_dom, is_fresh.
  rewrite lookup_insert_eq. simpl. rewrite insert_insert_eq.
  set (h1 := <[nextRow := Cells (Js.assign column v copy)]> h).
  set (nextMatrix := fresh (dom h1)).
  assert (h1 !! nextMatrix = None) as HnextMatrix
    by apply not_elem_of_dom, is_fresh.
  unfold assignRow. rewrite lookup_insert_eq. simpl. rewrite insert_insert_eq.
  set (h2 := <[nextMatrix := Rows (Js.assign row nextRow rows)]> h1).
  assert (h ⊆ h1) as Hsub1 by (by apply insert_subseteq).
  assert (h1 ⊆ h2) as Hsub2 by (by apply insert_subseteq).
  assert (h ⊆ h2) as Hsub by (by etrans).
  exists nextMatrix, h2. split; [done |]. split; [done |]. split.
  { destruct (h !! nextMatrix) eqn:Hold; [| done].
    by rewrite (lookup_weaken _ _ _ _ Hold Hsub1) in HnextMatrix. }
  unfold h2 at 1. rewrite lookup_insert_eq. apply mapM_Some.
  unfold Matrix.set. fold copy. apply Forall2_assign.
  - apply mapM_Some in HM. eapply Forall2_impl; [exact HM |].
    intros slot y. by apply rowAt_weaken.
  - simpl. assert (h2 !! nextRow = Some (Cells (Js.assign column v copy))) as ->;
      [| done].
    apply (lookup_weaken h1); [| done]. apply lookup_insert_eq.
  - done.
Qed.

(** C4: on every heap where [m] is a matrix, [set] at a non-negative
    position, within the matrix or beyond it, succeeds; [get] at that
    position of the matrix it returns is [v]; the returned matrix has the
    rows needed to reach [row]; every array that existed before, [m]
    included, still holds what it held, so [m] reads as before. *)
Theorem set_then_get i j v m h M :
  0 ≤ i → 0 ≤ j →
  Heap.matrixAt h m = Some M →
  ∃ m' h',
    Heap.set i j v m h = Some (m', h')
    ∧ Heap.get i j m' h' = Some v
    ∧ Heap.matrixAt h' m' = Some (Matrix.set i j v M)
    ∧ Matrix.get i j (Matrix.set i j v M) = v
    ∧ length (Matrix.set i j v M) = (length M `max` S (Z.to_nat i))%nat
    ∧ m' ≠ m
    ∧ (∀ address o, h !! address = Some o → h' !! address = Some o)
    ∧ Heap.matrixAt h' m = Some M.
Proof.
  intros Hi Hj HM.
  destruct (heap_set_refines i j v m h M HM)
    as (m' & h' & Hset & Hsub & Hnew & HM').
  exists m', h'. split; [exact Hset |].
  split; [by rewrite (heap_get_refines _ _ _ _ _ HM'), get_set_eq |].
  split; [exact HM' |]. split; [by apply get_set_eq |]. split.
  { unfold Matrix.set. rewrite length_assign.
    by rewrite (proj2 (Z.ltb_ge _ _)) by lia. }
  split.
  { intros ->. unfold matrixAt in HM. by rewrite Hnew in HM. }
  split; [intros address o Ho; by apply (lookup_weaken h) |].
  unfold matrixAt in *.
  destruct (h !! m) as [[| rows]|] eqn:Hm; try done.
  rewrite (lookup_weaken _ _ _ _ Hm Hsub). apply mapM_Some.
  apply mapM_Some in HM. eapply Forall2_impl; [exact HM |].
  intros slot y. by apply rowAt_weaken.
Qed.

End HeapFacts.

Lemma heapAB_matrix : Heap.matrixAt heapAB 2 = Some sheetAB.
Proof. reflexivity. Qed.

Lemma set_then_get_witness :
  ∃ m' h',
    Heap.set 2 1 (Js.Str "x") 2 heapAB = Some (m', h')
    ∧ Heap.get 2 1 m' h' = Some (Js.Str "x")
    ∧ Heap.matrixAt h' 2 = Some sheetAB.
Proof.
  destruct (set_then_get 2 1 (Js.Str "x") 2%positive heapAB sheetAB
              ltac:(lia) ltac:(lia) heapAB_matrix)
    as (m' & h' & Hset & Hget & _ & _ & _ & _ & _ & Hsame).
  exists m', h'. exact (conj Hset (conj Hget Hsame)).
Defined.

Example set_beyond_the_matrix :
  Matrix.set 2 1 (Js.Str "x") sheetAB
  = [Some [Some cellA; Some cellB]; None; Some [None; Some (Js.Str "x")]].
Proof. reflexivity. Qed.

(** ** Formula resolution *)

(** C5: [getComputedValue] returns [null] for an undefined cell and the raw
    value for a cell that is not a formula cell, in both cases without
    calling the parser; for a formula cell it calls [parse] once, on the
    extracted formula text, and returns the error when that is not [null]
    and the result otherwise. *)
Theorem getComputedValue_cases prefix parse :
  Formula.getComputedValue prefix parse None = Some (Js.Null, [])
  ∧ (∀ cell,
       Formula.isFormulaCell prefix cell = false →
       Formula.getComputedValue prefix parse (Some cell)
       = Some (Formula.value cell, []))
  ∧ (∀ cell,
       Formula.isFormulaCell prefix cell = true →
       ∃ text,
         Formula.value cell = Js.Str text
         ∧ let formula := Formula.extractFormula prefix text in
           let parsed := parse formula in
           Formula.getComputedValue prefix parse (Some cell)
           = Formula.getFormulaComputedValue prefix parse cell
           ∧ (Formula.error parsed ≠ Js.Null →
              Formula.getComputedValue prefix parse (Some cell)
              = Some (Formula.error parsed, [formula]))
           ∧ (Formula.error parsed = Js.Null →
              Formula.getComputedValue prefix parse (Some cell)
              = Some (Formula.result parsed, [formula]))).
Proof.
  split; [done |]. split.
  - intros cell Hf. simpl. by rewrite Hf.
  - intros [raw] Hf. simpl. rewrite Hf.
    unfold Formula.isFormulaCell in Hf. simpl in Hf.
    destruct raw as [| | | | text |]; try done.
    exists text. split; [done |]. simpl. split; [done |].
    unfold Formula.getFormulaComputedValue. simpl.
    destruct (Formula.error (parse _)); split; done.
Qed.

Lemma getComputedValue_cases_witness :
  Formula.isFormulaCell "=" formulaCell = true
  ∧ Formula.getComputedValue "=" parsesToTrue (Some formulaCell)
    = Some (Js.Bool true, ["TRUE()"]).
Proof.
  split; [reflexivity |].
  destruct (getComputedValue_cases "=" parsesToTrue) as (_ & _ & Hformula).
  destruct (Hformula formulaCell eq_refl) as (text & Htext & _ & _ & Hresult).
  injection Htext as <-. exact (Hresult eq_refl).
Defined.

Example formula_error_is_the_value :
  Formula.getComputedValue "=" parsesToError (Some formulaCell)
  = Some (Js.Str "#REF!", ["TRUE()"]).
Proof. reflexivity. Qed.

Example plain_cell_is_not_parsed :
  Formula.getComputedValue "=" parsesToError
    (Some (Formula.mkCell (Js.Str "EXAMPLE_CELL_VALUE")))
  = Some (Js.Str "EXAMPLE_CELL_VALUE", []).
Proof. reflexivity. Qed.

(** ** Commits *)

Section CommitFacts.
Import ActiveCell.
Variable getBindingsForCell : Js.value → list Point.

Lemma enter_edit_mode prevProps props this :
  mode prevProps = Some view → mode props = Some edit →
  shown (cell props) = true →
  componentDidUpdate prevProps props this
  = ({| cellBeforeUpdate := cell prevProps |}, []).
Proof.
  intros Hprev Hnext Hshown. unfold componentDidUpdate.
  fold (shown (cell props)). rewrite Hshown, Hprev, Hnext. done.
Qed.

Lemma stay_in_edit_mode prevProps props this :
  mode prevProps = Some edit → mode props = Some edit →
  componentDidUpdate prevProps props this = (this, []).
Proof.
  intros Hprev Hnext. unfold componentDidUpdate. rewrite Hprev, Hnext.
  by destruct (_ || _).
Qed.

Lemma leave_edit_mode prevProps props this :
  mode prevProps = Some edit → mode props ≠ Some edit →
  shown (cell props) = true →
  componentDidUpdate prevProps props this
  = (this, committed (cellBeforeUpdate this) (cell prevProps)).
Proof.
  intros Hprev Hnext Hshown. unfold componentDidUpdate, committed.
  fold (shown (cell props)). rewrite Hshown, Hprev.
  rewrite (bool_decide_eq_false_2 (Some edit = Some view)) by done.
  rewrite (bool_decide_eq_true_2 (Some edit = Some edit)) by done.
  rewrite (bool_decide_eq_false_2 (Some edit = mode props)) by done.
  simpl. by destruct (_ && _).
Qed.

Lemma last_cons_default {A} (x d : A) (l : list A) :
  List.last (x :: l) d = List.last l x.
Proof.
  revert x d. induction l as [| y l IH]; intros x d; [done |].
  change (List.last (x :: y :: l) d) with (List.last (y :: l) d).
  by rewrite !IH.
Qed.

Lemma updates_while_editing rest prevProps leave this :
  mode prevProps = Some edit →
  Forall (λ p, mode p = Some edit) rest →
  mode leave ≠ Some edit →
  shown (cell leave) = true →
  updates prevProps (rest ++ [leave]) this
  = (this, committed (cellBeforeUpdate this)
             (cell (List.last rest prevProps))).
Proof.
  revert prevProps. induction rest as [| p rest IH];
    intros prevProps Hprev Hrest Hleave Hshown.
  - simpl. rewrite leave_edit_mode by done. by rewrite (right_id_L [] (++)).
  - apply Forall_cons in Hrest as [Hp Hrest].
    change (updates prevProps ((p :: rest) ++ [leave]) this)
      with (let '(this', calls) := componentDidUpdate prevProps p this in
            let '(this'', calls') := updates p (rest ++ [leave]) this' in
            (this'', calls ++ calls')).
    rewrite stay_in_edit_mode by done. rewrite IH by done.
    by rewrite last_cons_default.
Qed.

(** C6, as the code has it.  Take an edit session: the props [before] in
    view mode, then [first] and the further props [rest] in edit mode, then
    [leave] in another mode, the cell being truthy or undefined when edit
    mode is entered and when it is left.  The snapshot is the cell of
    [before].  If the cell just before the mode change is truthy and differs
    by reference from the snapshot, the session makes one call, [commit]
    with the one record [{prevCell: snapshot, nextCell: that cell}];
    otherwise it makes no call.  [commit] carries no dependent points:
    those travel with [setCellData], which [handleChange] calls with the
    points [getBindingsForCell] gives for the changed cell. *)
Theorem commit_on_leaving_edit_mode before first rest leave this :
  mode before = Some view →
  Forall (λ p, mode p = Some edit) (first :: rest) →
  mode leave ≠ Some edit →
  shown (cell first) = true →
  shown (cell leave) = true →
  let snapshot := cell before in
  let last := cell (List.last rest first) in
  updates before (first :: rest ++ [leave]) this
  = ({| cellBeforeUpdate := snapshot |},
     if Js.truthy last && negb (Js.strict_eq last snapshot)
     then [commit [ {| prevCell := snapshot; nextCell := last |} ]]
     else [])
  ∧ ∀ row column changed,
      handleChange getBindingsForCell row column changed
      = [setCellData (mkPoint row column) changed (getBindingsForCell changed)].
Proof.
  intros Hbefore [Hfirst Hrest]%Forall_cons Hleave Hshown Hshown'. simpl.
  split; [| done].
  rewrite enter_edit_mode by done.
  rewrite updates_while_editing by done. done.
Qed.

End CommitFacts.

Lemma commit_on_leaving_edit_mode_witness :
  (ActiveCell.updates (ActiveCell.mkProps cellX (Some view)) sessionXY
     ActiveCell.initial).2
  = [ActiveCell.commit [ActiveCell.mkCommit cellX cellY]].
Proof.
  pose proof (commit_on_leaving_edit_mode oneDependent
                (ActiveCell.mkProps cellX (Some view))
                (ActiveCell.mkProps cellX (Some edit))
                [ActiveCell.mkProps cellY (Some edit)]
                (ActiveCell.mkProps cellY (Some view))
                ActiveCell.initial
                eq_refl
                ltac:(repeat constructor)
                ltac:(discriminate) eq_refl eq_refl) as [Hcalls _].
  exact (f_equal snd Hcalls).
Defined.

(** C6 as stated fails twice.  In the session from "X" to "Y" the commit
    is the only call made and no dependent point comes with it, although
    the host has one for the cell.  And when the cell just before the mode
    change is [null], it differs from the snapshot and yet nothing is
    committed. *)
Lemma commit_without_bindings_or_not_at_all :
  (let calls :=
     (ActiveCell.updates (ActiveCell.mkProps cellX (Some view)) sessionXY
        ActiveCell.initial).2 in
   calls = [ActiveCell.commit [ActiveCell.mkCommit cellX cellY]]
   ∧ mbind dependents calls = []
   ∧ oneDependent cellY ≠ [])
  ∧ Js.strict_eq Js.Null cellX = false
  ∧ (ActiveCell.updates (ActiveCell.mkProps cellX (Some view)) sessionXNull
       ActiveCell.initial).2 = [].
Proof. repeat split. discriminate. Qed.

(** ** Copy *)

Lemma get_set_other row column row' column' v matrix :
  (row, column) ≠ (row', column') →
  Matrix.get row' column' (Matrix.set row column v matrix)
  = Matrix.get row' column' matrix.
Proof.
  intros Hne. unfold Matrix.get, Matrix.set.
  destruct (decide (row = row')) as [<- | Hrow]; [| by rewrite index_assign_ne].
  destruct (decide (row < 0)) as [Hneg | Hpos].
  { unfold Js.assign at 1. by rewrite (proj2 (Z.ltb_lt _ _) Hneg). }
  rewrite index_assign_eq by lia.
  rewrite index_assign_ne by congruence.
  destruct (Js.index matrix row) as [r|]; [apply index_spread |].
  unfold Js.index. destruct (column' <? 0); [done |]. by rewrite lookup_nil.
Qed.

Lemma keep_fold_get data l r c :
  0 ≤ r → 0 ≤ c →
  Matrix.get r c (foldl (keep data) [] l)
  = if bool_decide (mkPoint r c ∈ l) then Matrix.get r c data
    else Js.Undefined.
Proof.
  intros Hr Hc. induction l as [| p l IH] using rev_ind.
  { simpl. unfold Matrix.get, Js.index. by destruct (r <? 0). }
  rewrite foldl_snoc. unfold keep at 1.
  destruct (decide (p = mkPoint r c)) as [-> | Hp].
  - simpl. rewrite get_set_eq by done.
    rewrite bool_decide_eq_true_2; [done |].
    apply elem_of_app. right. by left.
  - rewrite get_set_other by (destruct p; simpl; congruence).
    rewrite IH.
    rewrite (bool_decide_ext (mkPoint r c ∈ l ++ [p]) (mkPoint r c ∈ l));
      [done |].
    rewrite elem_of_app, list_elem_of_singleton.
    split; [| by left]. intros [Hin | Heq]; [done | by destruct Hp].
Qed.

Lemma toMatrix_get set data r c :
  0 ≤ r → 0 ≤ c →
  Matrix.get r c (PointSet.toMatrix set data)
  = if bool_decide (mkPoint r c ∈ set) then Matrix.get r c data
    else Js.Undefined.
Proof.
  intros Hr Hc. unfold PointSet.toMatrix, PointSet.reduce.
  fold (keep data). rewrite keep_fold_get by done.
  by rewrite (bool_decide_ext _ _ (elem_of_elements set (mkPoint r c))).
Qed.

Lemma within_set R W r c v m :
  r < Z.of_nat R → c < Z.of_nat W →
  within R W m → within R W (Matrix.set r c v m).
Proof.
  intros Hr Hc [Hlen Hrows]. unfold Matrix.set.
  set (base := match Js.index m r with Some x => Js.spread x | None => [] end).
  assert (length base ≤ W)%nat as Hbase.
  { unfold base. destruct (Js.index m r) as [cells|] eqn:Hcells;
      [| simpl; lia].
    rewrite length_spread. unfold Js.index in Hcells.
    destruct (r <? 0); [done |].
    destruct (m !! Z.to_nat r) as [[x|]|] eqn:Hx; simplify_eq/=.
    by apply (proj1 (Forall_lookup _ _) Hrows _ _ Hx). }
  clearbody base.
  assert (length (Js.assign c v base) ≤ W)%nat as Hnext.
  { rewrite length_assign. destruct (Z.ltb_spec c 0); lia. }
  split.
  - rewrite length_assign. destruct (Z.ltb_spec r 0); lia.
  - unfold Js.assign at 1. destruct (r <? 0); [done |].
    destruct (Z.to_nat r <? length m)%nat.
    + apply Forall_insert; [done |]. by intros cells [= <-].
    + apply Forall_app. split; [done |]. apply Forall_app. split.
      * apply Forall_replicate. by intros cells.
      * constructor; [| done]. by intros cells [= <-].
Qed.

Lemma toMatrix_within R W set data :
  (∀ p, p ∈ set → row p < Z.of_nat R ∧ column p < Z.of_nat W) →
  within R W (PointSet.toMatrix set data).
Proof.
  intros Hbound. unfold PointSet.toMatrix, PointSet.reduce.
  assert (∀ p, p ∈ elements set → row p < Z.of_nat R ∧ column p < Z.of_nat W)
    as Hl by (intros p Hp; by apply Hbound, elem_of_elements).
  clear Hbound. induction (elements set) as [| p l IH] using rev_ind.
  { split; [simpl; lia | done]. }
  rewrite foldl_snoc.
  destruct (Hl p) as [Hr Hc]; [apply elem_of_app; right; by left |].
  apply within_set; [done | done |].
  apply IH. intros q Hq. apply Hl, elem_of_app. by left.
Qed.

Lemma get_nat (r c : nat) (m : Matrix.Matrix) :
  Matrix.get (Z.of_nat r) (Z.of_nat c) m
  = match mjoin (m !! r) with
    | Some cells => default Js.Undefined (mjoin (cells !! c))
    | None => Js.Undefined
    end.
Proof.
  unfold Matrix.get. rewrite index_nat.
  destruct (mjoin (m !! r)); [| done]. by rewrite index_nat.
Qed.

Lemma filter_fmap_none {A B} (f : B → bool) (g : A → B) (l : list A) :
  (∀ x, f (g x) = false) → List.filter f (g <$> l) = [].
Proof.
  intros Hf. induction l as [| x l IH]; [done |]. simpl. by rewrite Hf.
Qed.

(** The truthy entries of a row, read by index. *)
Lemma filter_row_by_index (cells : Matrix.Row) (W : nat) :
  (length cells ≤ W)%nat →
  List.filter Js.truthy (omap id cells)
  = List.filter Js.truthy
      ((λ c : nat, default Js.Undefined (mjoin (cells !! c))) <$> seq 0 W).
Proof.
  revert W. induction cells as [| slot cells IH]; intros W Hlen.
  { simpl. by rewrite filter_fmap_none. }
  destruct W as [| W]; [simpl in Hlen; lia |].
  simpl in Hlen. specialize (IH W ltac:(lia)).
  change (seq 0 (S W)) with (0%nat :: seq 1 W).
  rewrite <- fmap_S_seq, fmap_cons, <- list_fmap_compose.
  destruct slot as [v|]; simpl.
  - destruct (Js.truthy v); [f_equal |]; exact IH.
  - exact IH.
Qed.

Lemma filter_dense m : Matrix.filter Js.truthy m = dense (kept m).
Proof.
  unfold Matrix.filter, Matrix.filter_row, dense, kept, denseRow.
  induction m as [| slot m IH]; [done |].
  destruct slot as [cells|]; simpl; [| exact IH].
  rewrite length_fmap.
  destruct (negb _); simpl; [by f_equal | exact IH].
Qed.

Lemma kept_by_index m R W :
  within R W m →
  kept m
  = List.filter (λ row, negb (length row =? 0)%nat)
      ((λ r : nat,
          List.filter Js.truthy
            ((λ c : nat, Matrix.get (Z.of_nat r) (Z.of_nat c) m) <$> seq 0 W))
         <$> seq 0 R).
Proof.
  unfold kept. revert R. induction m as [| slot m IH]; intros R [Hlen Hrows].
  { simpl. rewrite filter_fmap_none; [done |]. intros r.
    rewrite filter_fmap_none; [done |]. intros c. rewrite get_nat.
    by rewrite lookup_nil. }
  destruct R as [| R]; [simpl in Hlen; lia |].
  simpl in Hlen. apply Forall_cons in Hrows as [Hslot Hrows].
  assert (length m ≤ R)%nat as Hlen' by lia.
  specialize (IH R (conj Hlen' Hrows)).
  change (seq 0 (S R)) with (0%nat :: seq 1 R).
  rewrite <- fmap_S_seq, fmap_cons, <- list_fmap_compose.
  assert (∀ r : nat,
            List.filter Js.truthy
              ((λ c : nat, Matrix.get (Z.of_nat (S r)) (Z.of_nat c) (slot :: m))
                 <$> seq 0 W)
            = List.filter Js.truthy
                ((λ c : nat, Matrix.get (Z.of_nat r) (Z.of_nat c) m)
                   <$> seq 0 W)) as Htail.
  { intros r. f_equal. apply list_fmap_ext. intros _ c _.
    by rewrite !get_nat. }
  rewrite (list_fmap_ext _ _ _ (λ _ r _, Htail r)) in *.
  destruct slot as [cells|].
  - cbn [omap list_omap option_map List.filter].
    rewrite (filter_row_by_index cells W) by (by apply Hslot).
    replace (List.filter Js.truthy
               ((λ c : nat, Matrix.get (Z.of_nat 0) (Z.of_nat c) (Some cells :: m))
                  <$> seq 0 W))
      with (List.filter Js.truthy
              ((λ c : nat, default Js.Undefined (mjoin (cells !! c)))
                 <$> seq 0 W)).
    + destruct (negb _); by rewrite IH.
    + f_equal. apply list_fmap_ext. intros _ c _. by rewrite get_nat.
  - cbn [omap list_omap option_map List.filter].
    rewrite (filter_fmap_none Js.truthy
               (λ c : nat, Matrix.get (Z.of_nat 0) (Z.of_nat c) (None :: m)))
      by (intros c; by rewrite get_nat).
    simpl. exact IH.
Qed.

Lemma map_row_dense func (row : list Js.value) :
  Matrix.map_row func (Some <$> row) = fmap Some <$> mapM func row.
Proof.
  unfold Matrix.map_row. induction row as [| v row IH]; [done |].
  rewrite fmap_cons. cbn [mapM]. rewrite IH.
  destruct (func v) as [w|]; [| done]. by destruct (mapM func row).
Qed.

Lemma map_dense func (rows : list (list Js.value)) :
  Matrix.map func (dense rows) = dense <$> mapM (mapM func) rows.
Proof.
  unfold Matrix.map, dense, denseRow.
  induction rows as [| row rows IH]; [done |].
  rewrite fmap_cons. cbn [mapM]. rewrite IH, map_row_dense.
  destruct (mapM func row) as [ws|]; [| done].
  by destruct (mapM (mapM func) rows).
Qed.

Lemma join_dense rows : Matrix.join (dense rows) = commaSeparated rows.
Proof.
  unfold Matrix.join, Matrix.join_with, commaSeparated, dense, denseRow.
  f_equal. rewrite <- list_fmap_compose. apply list_fmap_ext.
  intros _ row _. simpl. unfold Js.join. f_equal.
  by rewrite <- list_fmap_compose.
Qed.

Lemma filter_toMatrix set data R W :
  (∀ p, p ∈ set → row p < Z.of_nat R ∧ column p < Z.of_nat W) →
  Matrix.filter Js.truthy (PointSet.toMatrix set data)
  = dense (selectedCells set data R W).
Proof.
  intros Hbound. rewrite filter_dense.
  rewrite (kept_by_index _ R W) by (by apply toMatrix_within).
  unfold selectedCells. do 2 f_equal. apply list_fmap_ext. intros _ r _.
  f_equal. apply list_fmap_ext. intros _ c _. apply toMatrix_get; lia.
Qed.

(** What copy does where [getValue] can read every cell it is handed: it
    takes the selected cells of the data row by row, leaves out the missing
    and falsy ones and the rows where none is left, joins the values of a
    row with ", " and the rows with a newline, writes that text to the
    clipboard if permitted, and records the selection as copied with [cut]
    and [hasPasted] false. *)
Lemma copy_joins_with_comma permissions state R W values :
  (∀ p, p ∈ selected state → row p < Z.of_nat R ∧ column p < Z.of_nat W) →
  mapM (mapM getValue) (selectedCells (selected state) (data state) R W)
  = Some values →
  handleCopy permissions state
  = Returns
      {| clipboard :=
           if permitted permissions then Some (commaSeparated values)
           else None;
         after :=
           {| data := data state;
              selected := selected state;
              copied := selected state;
              active := active state;
              mode := mode state;
              cut := Some false;
              hasPasted := Some false |} |}.
Proof.
  intros Hbound Hvalues. unfold handleCopy.
  rewrite (filter_toMatrix _ _ R W Hbound), map_dense, Hvalues. simpl.
  rewrite join_dense. unfold permitted, setState. simpl.
  destruct permissions as [status|], (active state); try done.
Qed.

Lemma selected_copyWrappedAB p :
  p ∈ selected copyWrappedAB → row p < Z.of_nat 1 ∧ column p < Z.of_nat 2.
Proof.
  unfold copyWrappedAB. cbn [selected].
  by intros [->%elem_of_singleton | ->%elem_of_singleton]%elem_of_union.
Qed.

Example copy_wrapped_cells :
  handleCopy None copyWrappedAB
  = Returns
      {| clipboard := Some "A, B";
         after := mkState (data copyWrappedAB) (selected copyWrappedAB)
                    (selected copyWrappedAB) (Some (mkPoint 0 0)) view
                    (Some false) (Some false) |}.
Proof.
  exact (copy_joins_with_comma None copyWrappedAB 1 2
           [[Js.Str "A"; Js.Str "B"]] selected_copyWrappedAB
           ltac:(vm_compute; reflexivity)).
Defined.

(** The same without the wrapping never gets as far as the text: the bare
    strings "A" and "B" make [getValue] throw as well.  Where the cells are
    wrapped, the separator is ", " and not a tab, and a missing cell
    between two others is left out, not turned into an empty string. *)
Example copy_separators :
  handleCopy None copyRawAB = Throws
  ∧ (∃ c, handleCopy None copyWrappedAB = Returns c
          ∧ clipboard c = Some "A, B"
          ∧ clipboard c
            ≠ Some (tabSeparated [[Js.Str "A"; Js.Str "B"]]))
  ∧ (∃ c, handleCopy None copyWithGap = Returns c
          ∧ clipboard c = Some "A, B"
          ∧ clipboard c
            ≠ Some (tabSeparated [[Js.Str "A"; Js.Str ""; Js.Str "B"]])).
Proof.
  split; [vm_compute; reflexivity |].
  split; eexists; (split; [vm_compute; reflexivity |]);
    (split; [reflexivity | discriminate]).
Qed.

(** Every finite selection lies below some row and column. *)
Lemma selection_bounded (set : gset Point) :
  ∃ R W : nat, ∀ p, p ∈ set → row p < Z.of_nat R ∧ column p < Z.of_nat W.
Proof.
  induction set as [| q set _ (R & W & IH)] using set_ind_L.
  { exists 0%nat, 0%nat. intros p Hp. by apply not_elem_of_empty in Hp. }
  exists (R `max` Z.to_nat (row q + 1))%nat,
    (W `max` Z.to_nat (column q + 1))%nat.
  intros p [->%elem_of_singleton | Hp%IH]%elem_of_union; lia.
Qed.

(** A truthy cell that is selected is among the cells copy hands to
    [getValue]. *)
Lemma selected_cell_kept set data R W p :
  (∀ q, q ∈ set → row q < Z.of_nat R ∧ column q < Z.of_nat W) →
  p ∈ set →
  Js.truthy (Matrix.get (row p) (column p) data) = true →
  ∃ cells, cells ∈ selectedCells set data R W
           ∧ Matrix.get (row p) (column p) data ∈ cells.
Proof.
  intros Hbound Hp Htruthy.
  assert (0 ≤ row p) as Hr.
  { destruct (Z.ltb_spec (row p) 0) as [Hneg|]; [| done].
    unfold Matrix.get in Htruthy. by rewrite index_negative in Htruthy. }
  assert (0 ≤ column p) as Hc.
  { destruct (Z.ltb_spec (column p) 0) as [Hneg|]; [| done].
    unfold Matrix.get in Htruthy.
    destruct (Js.index data (row p)); [| done].
    by rewrite index_negative in Htruthy. }
  destruct (Hbound p Hp) as [HR HW].
  set (cell := Matrix.get (row p) (column p) data) in *.
  set (cells := List.filter Js.truthy
                  ((λ c : nat,
                      if bool_decide
                           (mkPoint (Z.of_nat (Z.to_nat (row p))) (Z.of_nat c)
                              ∈ set)
                      then Matrix.get (Z.of_nat (Z.to_nat (row p)))
                             (Z.of_nat c) data
                      else Js.Undefined) <$> seq 0 W)).
  assert (cell ∈ cells) as Hcell.
  { apply list_elem_of_In, filter_In. split; [| done].
    apply list_elem_of_In, list_elem_of_fmap.
    exists (Z.to_nat (column p)). split; [| apply elem_of_seq; lia].
    rewrite !Z2Nat.id by done.
    replace (mkPoint (row p) (column p)) with p by (by destruct p).
    by rewrite bool_decide_eq_true_2. }
  exists cells. split; [| done].
  unfold selectedCells. apply list_elem_of_In, filter_In. split.
  - apply list_elem_of_In, list_elem_of_fmap.
    exists (Z.to_nat (row p)). split; [done | apply elem_of_seq; lia].
  - destruct cells; [by apply elem_of_nil in Hcell | done].
Qed.

(** C2, where the code departs from it: [handleCopy] hands each selected
    cell to [getValue], which reads [cell.data.value], although a cell of
    the sheet carries its value in [cell.value] and has no [data].  So
    whenever a selected position holds a truthy cell without a [data]
    property, as the cells with the values "A" and "B" are, copy throws:
    no text is written to the clipboard and the state is not updated. *)
Theorem copy_throws_on_sheet_cells permissions state p :
  p ∈ selected state →
  Js.truthy (Matrix.get (row p) (column p) (data state)) = true →
  Js.prop "data" (Matrix.get (row p) (column p) (data state))
  = Some Js.Undefined →
  handleCopy permissions state = Throws.
Proof.
  intros Hp Htruthy Hdata. unfold handleCopy.
  destruct (selection_bounded (selected state)) as (R & W & Hbound).
  rewrite (filter_toMatrix _ _ R W Hbound), map_dense.
  destruct (selected_cell_kept _ (data state) R W p Hbound Hp Htruthy)
    as (cells & Hcells & Hcell).
  destruct (mapM (mapM getValue) _) as [values|] eqn:Hvalues; [| done].
  exfalso.
  assert (is_Some (mapM (mapM getValue)
                     (selectedCells (selected state) (data state) R W)))
    as Hrows%mapM_is_Some by (by rewrite Hvalues).
  pose proof (proj1 (Forall_forall _ _) Hrows cells Hcells) as Hrow.
  apply mapM_is_Some in Hrow.
  pose proof (proj1 (Forall_forall _ _) Hrow _ Hcell) as [value Hvalue].
  simpl in Hvalue. unfold getValue in Hvalue. by rewrite Hdata in Hvalue.
Qed.

(** The scenario of the specification: the cells (0,0) and (0,1), with the
    values "A" and "B", are selected and copied. *)
Lemma copy_throws_on_sheet_cells_witness : handleCopy None copyAB = Throws.
Proof.
  apply (copy_throws_on_sheet_cells None copyAB (mkPoint 0 0));
    [| reflexivity | reflexivity].
  unfold copyAB. cbn [selected]. apply elem_of_union_l.
  by apply elem_of_singleton.
Defined.

(** * Further properties of [matrix.js] *)

(** ** Reading and writing cells *)

(** A position outside the extents of the matrix, a negative one included,
    reads as [undefined] and is denied by [has]. *)
Theorem get_outside_is_undefined i j m :
  inBounds i j m = false →
  Matrix.get i j m = Js.Undefined ∧ Matrix.has i j m = false.
Proof.
  intros Hout. split; [| by apply out_of_bounds_has].
  unfold inBounds in Hout. unfold Matrix.get.
  destruct (Js.index m i) as [cells|]; [| done].
  apply andb_false_iff in Hout as [Hneg%Z.leb_gt | Hbeyond%Z.ltb_ge].
  - by rewrite index_negative.
  - by rewrite index_beyond.
Qed.

Lemma get_outside_is_undefined_witness :
  Matrix.get 0 2 sheetAB = Js.Undefined ∧ Matrix.has 0 2 sheetAB = false.
Proof. exact (get_outside_is_undefined 0 2 sheetAB eq_refl). Defined.



(** The size after [set] at a non-negative position: the rows grow to reach
    the row written and not further; the columns, which [getSize] reads off
    the first row, change only when the first row is written, and then grow
    to reach the column written and not further. *)
Theorem getSize_set i j v m :
  0 ≤ i → 0 ≤ j →
  Matrix.rows (Matrix.getSize (Matrix.set i j v m))
  = (Matrix.rows (Matrix.getSize m) `max` S (Z.to_nat i))%nat
  ∧ Matrix.columns (Matrix.getSize (Matrix.set i j v m))
    = if i =? 0
      then (Matrix.columns (Matrix.getSize m) `max` S (Z.to_nat j))%nat
      else Matrix.columns (Matrix.getSize m).
Proof.
  intros Hi Hj. unfold Matrix.getSize, Matrix.set. cbn [Matrix.rows Matrix.columns].
  split.
  - rewrite length_assign. by rewrite (proj2 (Z.ltb_ge _ _)) by lia.
  - destruct (Z.eqb_spec i 0) as [-> | Hi0].
    + rewrite index_assign_eq by done. rewrite length_assign.
      rewrite (proj2 (Z.ltb_ge _ _)) by lia.
      destruct (Js.index m 0) as [cells|]; [by rewrite length_spread | done].
    + by rewrite index_assign_ne.
Qed.

Lemma getSize_set_witness :
  Matrix.rows (Matrix.getSize (Matrix.set 2 1 Js.Null sheetAB)) = 3%nat
  ∧ Matrix.columns (Matrix.getSize (Matrix.set 2 1 Js.Null sheetAB)) = 2%nat.
Proof.
  exact (getSize_set 2 1 Js.Null sheetAB ltac:(lia) ltac:(lia)).
Defined.

(** Writes to two different cells can be made in either order, and of two
    writes to one cell the later one counts: the resulting matrices read
    the same at every position. *)
Theorem set_set i1 j1 v1 i2 j2 v2 m :
  0 ≤ i1 → 0 ≤ j1 → 0 ≤ i2 → 0 ≤ j2 →
  ∀ i j,
    Matrix.get i j (Matrix.set i1 j1 v1 (Matrix.set i2 j2 v2 m))
    = if bool_decide ((i1, j1) = (i2, j2))
      then Matrix.get i j (Matrix.set i1 j1 v1 m)
      else Matrix.get i j (Matrix.set i2 j2 v2 (Matrix.set i1 j1 v1 m)).
Proof.
  intros H1 H2 H3 H4 i j. case_bool_decide as Hsame.
  - injection Hsame as <- <-.
    destruct (decide ((i1, j1) = (i, j))) as [[= <- <-] | Hne].
    + by rewrite !get_set_eq.
    + by rewrite !get_set_other.
  - destruct (decide ((i1, j1) = (i, j))) as [[= <- <-] | Hne1].
    + rewrite get_set_eq by done. rewrite get_set_other by congruence.
      by rewrite get_set_eq.
    + rewrite (get_set_other i1 j1) by done.
      destruct (decide ((i2, j2) = (i, j))) as [[= <- <-] | Hne2].
      * by rewrite !get_set_eq.
      * by rewrite !get_set_other.
Qed.

Lemma set_set_witness :
  Matrix.get 0 0 (Matrix.set 0 0 cellB (Matrix.set 1 1 cellA sheetAB))
  = Matrix.get 0 0 (Matrix.set 1 1 cellA (Matrix.set 0 0 cellB sheetAB)).
Proof.
  exact (set_set 0 0 cellB 1 1 cellA sheetAB
           ltac:(lia) ltac:(lia) ltac:(lia) ltac:(lia) 0 0).
Defined.

(** ** [filter] *)

Lemma filter_accepts (f : Js.value → bool) (l : list Js.value) :
  Forall (λ v, f v = true) (List.filter f l).
Proof.
  induction l as [| v l IH]; [constructor |]. simpl.
  destruct (f v) eqn:Hv; [by constructor | done].
Qed.

Lemma filter_accepted (f : Js.value → bool) (l : list Js.value) :
  Forall (λ v, f v = true) l → List.filter f l = l.
Proof.
  induction 1 as [| v l Hv _ IH]; [done |]. simpl. by rewrite Hv, IH.
Qed.

Lemma filter_row_sifted f (cells : Matrix.Row) :
  Forall (λ s, ∃ v, s = Some v ∧ f v = true) (Matrix.filter_row f cells).
Proof.
  unfold Matrix.filter_row. apply Forall_fmap.
  eapply Forall_impl; [apply filter_accepts |]. intros v Hv. by exists v.
Qed.

Lemma filter_row_fixed f (cells : Matrix.Row) :
  Forall (λ s, ∃ v, s = Some v ∧ f v = true) cells →
  Matrix.filter_row f cells = cells.
Proof.
  unfold Matrix.filter_row. induction 1 as [| s cells (v & -> & Hv) _ IH];
    [done |].
  simpl. rewrite Hv. simpl. f_equal. exact IH.
Qed.

(** [filter] yields a dense matrix: no row is missing or empty, no slot is a
    hole, and every value passes the predicate.  It never has more rows than
    the matrix it was given. *)
Theorem filter_is_sifted f m :
  sifted f (Matrix.filter f m)
  ∧ (length (Matrix.filter f m) ≤ length m)%nat.
Proof.
  split.
  - unfold sifted, Matrix.filter. induction m as [| slot m IH]; [constructor |].
    destruct slot as [cells|]; simpl; [| exact IH].
    destruct (length (Matrix.filter_row f cells)) eqn:Hlen; simpl;
      [exact IH |].
    constructor; [| exact IH].
    exists (Matrix.filter_row f cells). split; [done |]. split.
    + intros Hnil. by rewrite Hnil in Hlen.
    + apply filter_row_sifted.
  - unfold Matrix.filter. rewrite length_fmap.
    induction m as [| slot m IH]; [done |].
    destruct slot as [cells|]; simpl; [| apply le_S; exact IH].
    destruct (negb _); simpl; [apply le_n_S | apply le_S]; exact IH.
Qed.

(** Filtering what was filtered by the same predicate changes nothing. *)
Theorem filter_filter f m :
  Matrix.filter f (Matrix.filter f m) = Matrix.filter f m.
Proof.
  destruct (filter_is_sifted f m) as [Hs _]. revert Hs.
  generalize (Matrix.filter f m). intros k Hs. unfold sifted in Hs.
  unfold Matrix.filter. induction Hs as [| slot k (cells & -> & Hne & Hcells) _ IH];
    [done |].
  simpl. rewrite (filter_row_fixed f cells Hcells).
  destruct cells as [| s cells]; [done |]. simpl. f_equal. exact IH.
Qed.

(** When the predicate accepts nothing, [filter] leaves nothing: the empty
    matrix, of size 0 by 0. *)
Theorem filter_nothing f m :
  (∀ v, f v = false) →
  Matrix.filter f m = []
  ∧ Matrix.getSize (Matrix.filter f m) = Matrix.mkSize 0 0.
Proof.
  intros Hf. assert (Matrix.filter f m = []) as ->; [| done].
  unfold Matrix.filter, Matrix.filter_row.
  induction m as [| slot m IH]; [done |].
  destruct slot as [cells|]; simpl; [| exact IH].
  assert (List.filter f (omap id cells) = []) as ->; [| exact IH].
  induction (omap id cells) as [| v l IHl]; [done |]. simpl. by rewrite Hf.
Qed.

Lemma filter_nothing_witness :
  Matrix.filter (λ _, false) patchy = []
  ∧ Matrix.getSize (Matrix.filter (λ _, false) patchy) = Matrix.mkSize 0 0.
Proof. exact (filter_nothing (λ _, false) patchy (λ _, eq_refl)). Defined.

Example filter_patchy :
  Matrix.filter Js.truthy patchy = [Some [Some cellA]; Some [Some cellB]].
Proof. reflexivity. Qed.

(** ** [map] *)

(** What [row.map(func)] does to one slot. *)
Lemma map_row_slots func (cells cells' : Matrix.Row) :
  Matrix.map_row func cells = Some cells' →
  Forall2 (λ s s', match s with
                   | None => s' = None
                   | Some v => ∃ w, func v = Some w ∧ s' = Some w
                   end) cells cells'.
Proof.
  unfold Matrix.map_row. intros H%mapM_Some.
  eapply Forall2_impl; [exact H |]. intros [v|] s' Hs; simpl in Hs.
  - destruct (func v) as [w|]; simplify_eq/=. by exists w.
  - by simplify_eq.
Qed.

Lemma map_rows func (m m' : Matrix.Matrix) :
  Matrix.map func m = Some m' →
  Forall2 (λ r r', match r with
                   | None => r' = None
                   | Some cells =>
                       ∃ cells', Matrix.map_row func cells = Some cells'
                                 ∧ r' = Some cells'
                   end) m m'.
Proof.
  unfold Matrix.map. intros H%mapM_Some.
  eapply Forall2_impl; [exact H |]. intros [cells|] r' Hr; simpl in Hr.
  - destruct (Matrix.map_row func cells) as [cells'|]; simplify_eq/=.
    by exists cells'.
  - by simplify_eq.
Qed.

Lemma index_Forall2 {A B} (P : option A → option B → Prop)
    (l : list (option A)) (k : list (option B)) i :
  Forall2 P l k →
  match Js.index l i with
  | Some x => ∃ y, P (Some x) y ∧ mjoin (k !! Z.to_nat i) = mjoin (Some y)
              ∧ 0 ≤ i
  | None => i < 0 ∨ k !! Z.to_nat i = None
            ∨ ∃ y, P None y ∧ k !! Z.to_nat i = Some y
  end.
Proof.
  intros HP. unfold Js.index. destruct (Z.ltb_spec i 0); [by left |].
  destruct (l !! Z.to_nat i) as [[x|]|] eqn:Hl; simpl.
  - destruct (Forall2_lookup_l _ _ _ _ _ HP Hl) as (y & Hk & Hy).
    exists y. by rewrite Hk.
  - destruct (Forall2_lookup_l _ _ _ _ _ HP Hl) as (y & Hk & Hy).
    right. right. by exists y.
  - right. left. apply lookup_ge_None. apply lookup_ge_None in Hl.
    by rewrite <- (Forall2_length _ _ _ HP).
Qed.

(** Where [map] returns, the result has the extents of the matrix it was
    given, hence its size; each stored value has been replaced by what the
    function made of it, and what was missing is still missing: the
    function is not run on holes. *)
Theorem map_keeps_shape func m m' :
  Matrix.map func m = Some m' →
  shape m' = shape m
  ∧ Matrix.getSize m' = Matrix.getSize m
  ∧ ∀ i j,
      match stored i j m with
      | Some v => ∃ w, func v = Some w ∧ stored i j m' = Some w
      | None => stored i j m' = None
      end.
Proof.
  intros Hrows%map_rows.
  assert (shape m' = shape m) as Hshape.
  { unfold shape. induction Hrows as [| r r' m m' Hr _ IH]; [done |].
    simpl. f_equal; [| exact IH]. destruct r as [cells|]; [| by subst].
    destruct Hr as (cells' & Hcells%map_row_slots & ->). simpl.
    by rewrite (Forall2_length _ _ _ Hcells). }
  split; [exact Hshape |]. split; [by apply getSize_shape |].
  intros i j. unfold stored.
  pose proof (index_Forall2 _ _ _ i Hrows) as Hi.
  destruct (Js.index m i) as [cells|] eqn:Hcells; simpl.
  - destruct Hi as (r' & (cells' & Hmap%map_row_slots & ->) & Hr' & Hi0).
    assert (Js.index m' i = Some cells') as ->.
    { unfold Js.index. by rewrite (proj2 (Z.ltb_ge _ _)) by lia. }
    simpl. pose proof (index_Forall2 _ _ _ j Hmap) as Hj.
    destruct (Js.index cells j) as [v|] eqn:Hv.
    + destruct Hj as (s' & (w & Hw & ->) & Hs' & Hj0). exists w.
      split; [done |]. unfold Js.index.
      by rewrite (proj2 (Z.ltb_ge _ _)) by lia.
    + unfold Js.index. destruct (Z.ltb_spec j 0); [done |].
      destruct Hj as [? | [-> | (s' & -> & ->)]]; [lia | done | done].
  - unfold Js.index. destruct (Z.ltb_spec i 0); [done |].
    destruct Hi as [? | [-> | (r' & -> & ->)]]; [lia | done | done].
Qed.

Lemma map_keeps_shape_witness :
  shape [Some [Some (Js.Str "A"); None]] = shape [Some [Some wrappedA; None]].
Proof.
  exact (proj1 (map_keeps_shape getValue [Some [Some wrappedA; None]]
                  [Some [Some (Js.Str "A"); None]] eq_refl)).
Defined.

(** [map] throws exactly when the function throws on one of the stored
    values. *)
Theorem map_throws_iff func m :
  Matrix.map func m = None
  ↔ ∃ i j v, stored i j m = Some v ∧ func v = None.
Proof.
  unfold Matrix.map, Matrix.map_row. rewrite mapM_None, Exists_exists. split.
  - intros ([cells|] & [n Hn]%list_elem_of_lookup & Hrow); [| done].
    destruct (mapM _ cells) eqn:Hmap; [done |].
    apply mapM_None, Exists_exists in Hmap
      as ([v|] & [k Hk]%list_elem_of_lookup & Hv); [| done].
    exists (Z.of_nat n), (Z.of_nat k), v. split.
    + unfold stored. rewrite index_nat, Hn. simpl. by rewrite index_nat, Hk.
    + by destruct (func v).
  - intros (i & j & v & Hst & Hv). unfold stored in Hst.
    destruct (Js.index m i) as [cells|] eqn:Hcells; [| done]. simpl in Hst.
    unfold Js.index in Hcells, Hst.
    destruct (i <? 0); [done |]. destruct (j <? 0); [done |].
    destruct (m !! Z.to_nat i) as [[cells0|]|] eqn:Hm; simplify_eq/=.
    destruct (cells !! Z.to_nat j) as [[v0|]|] eqn:Hc; simplify_eq/=.
    exists (Some cells). split; [by eapply list_elem_of_lookup_2 |].
    assert (mapM (λ slot, match slot with
                          | Some v0 => Some <$> func v0
                          | None => Some None
                          end) cells = None) as ->; [| done].
    apply mapM_None, Exists_exists. exists (Some v).
    split; [by eapply list_elem_of_lookup_2 |]. by rewrite Hv.
Qed.

Lemma map_row_map_row f g (cells cells1 : Matrix.Row) :
  Matrix.map_row f cells = Some cells1 →
  Matrix.map_row g cells1 = Matrix.map_row (λ v, f v ≫= g) cells.
Proof.
  unfold Matrix.map_row. revert cells1.
  induction cells as [| s cells IH]; intros cells1 Hmap.
  { by injection Hmap as <-. }
  cbn [mapM] in Hmap |- *.
  destruct (mapM _ cells) as [rest|] eqn:Hrest.
  - specialize (IH rest eq_refl). destruct s as [v|]; simpl in Hmap.
    + destruct (f v) as [w|]; simpl in Hmap; [| done].
      injection Hmap as <-. cbn [mapM]. rewrite IH. done.
    + injection Hmap as <-. cbn [mapM]. rewrite IH. done.
  - destruct s as [v|]; simpl in Hmap; [| done]. by destruct (f v).
Qed.

(** Two passes of [map] amount to one pass with the two functions run one
    after the other. *)
Theorem map_map f g m m1 :
  Matrix.map f m = Some m1 →
  Matrix.map g m1 = Matrix.map (λ v, f v ≫= g) m.
Proof.
  unfold Matrix.map. revert m1.
  induction m as [| r m IH]; intros m1 Hmap.
  { by injection Hmap as <-. }
  cbn [mapM] in Hmap |- *.
  destruct (mapM _ m) as [rest|] eqn:Hrest.
  - specialize (IH rest eq_refl). destruct r as [cells|]; simpl in Hmap.
    + destruct (Matrix.map_row f cells) as [cells1|] eqn:Hcells;
        simpl in Hmap; [| done].
      injection Hmap as <-. cbn [mapM].
      rewrite IH, (map_row_map_row f g cells cells1 Hcells). done.
    + injection Hmap as <-. cbn [mapM]. rewrite IH. done.
  - destruct r as [cells|]; simpl in Hmap; [| done].
    by destruct (Matrix.map_row f cells).
Qed.

Lemma map_map_witness :
  Matrix.map (Js.prop "value") [Some [Some (Js.Obj 6 [("value", Js.Str "A")])]]
  = Matrix.map (λ v, Js.prop "data" v ≫= Js.prop "value")
      [Some [Some wrappedA]].
Proof.
  exact (map_map (Js.prop "data") (Js.prop "value") [Some [Some wrappedA]]
           [Some [Some (Js.Obj 6 [("value", Js.Str "A")])]] eq_refl).
Defined.

(** ** [range] and [inclusiveRange] *)

Lemma elem_of_range_step1 e s x :
  x ∈ Util.range e s 1 ↔ s ≤ x < e ∨ e < x ≤ s.
Proof.
  unfold Util.range. rewrite Z.div_1_r, list_elem_of_fmap. split.
  - intros (i & -> & Hi%elem_of_seq). destruct (Z.ltb_spec e s); lia.
  - intros [Hup | Hdown].
    + exists (Z.to_nat (x - s)). rewrite elem_of_seq.
      rewrite (proj2 (Z.ltb_ge _ _)) by lia. lia.
    + exists (Z.to_nat (s - x)). rewrite elem_of_seq.
      rewrite (proj2 (Z.ltb_lt _ _)) by lia. lia.
Qed.

Lemma length_range_step1 e s :
  length (Util.range e s 1) = Z.to_nat (Z.abs (e - s)).
Proof.
  unfold Util.range. rewrite length_fmap, length_seq, Z.div_1_r. lia.
Qed.

Lemma length_bind_const {A B} (f : A → list B) (l : list A) n :
  (∀ x, length (f x) = n) → length (l ≫= f) = (length l * n)%nat.
Proof.
  intros Hf. induction l as [| x l IH]; [done |].
  change ((x :: l) ≫= f) with (f x ++ (l ≫= f)).
  rewrite length_app, Hf, IH. simpl. lia.
Qed.

(** [range] enumerates from the start point towards the end point, on each
    axis leaving out the coordinate of the end point, except that an axis
    on which the two points agree is kept when the other axis differs.  So
    the end point is never among the points, the start point is unless the
    two coincide, and the number of points is the product of the distances
    on the two axes, a distance of 0 counting as 1 beside a non-zero one. *)
Theorem range_members endPoint startPoint :
  (∀ p, p ∈ Matrix.range endPoint startPoint
        ↔ startPoint ≠ endPoint
          ∧ towards (row startPoint) (row endPoint) (row p)
          ∧ towards (column startPoint) (column endPoint) (column p))
  ∧ (endPoint ∉ Matrix.range endPoint startPoint)
  ∧ (startPoint ∈ Matrix.range endPoint startPoint ↔ startPoint ≠ endPoint)
  ∧ length (Matrix.range endPoint startPoint)
    = if bool_decide (startPoint = endPoint) then 0%nat
      else (Z.to_nat (1 `max` Z.abs (row endPoint - row startPoint))
            * Z.to_nat (1 `max` Z.abs (column endPoint - column startPoint)))%nat.
Proof.
  destruct endPoint as [er ec], startPoint as [sr sc].
  assert (∀ p, p ∈ Matrix.range (mkPoint er ec) (mkPoint sr sc)
               ↔ mkPoint sr sc ≠ mkPoint er ec
                 ∧ towards sr er (row p) ∧ towards sc ec (column p)) as Hmem.
  { intros [r c]. unfold Matrix.range, towards. rewrite flatMap_bind.
    cbn [row column]. rewrite list_elem_of_bind.
    destruct (Z.eqb_spec sc ec) as [-> | Hc], (Z.eqb_spec sr er) as [-> | Hr];
      cbn [negb].
    - split; [by intros (y & _ & Hy%not_elem_of_nil) | by intros [? _]].
    - split.
      + intros (y & (x & [= -> ->] & ->%list_elem_of_singleton)%list_elem_of_fmap
                 & Hy%elem_of_range_step1).
        split; [congruence | done].
      + intros (_ & Hrow & ->). exists r. split; [| by apply elem_of_range_step1].
        apply list_elem_of_fmap. exists ec. split; [done | by left].
    - split.
      + intros (y & (x & [= -> ->] & Hx%elem_of_range_step1)%list_elem_of_fmap
                 & ->%list_elem_of_singleton).
        split; [congruence | done].
      + intros (_ & -> & Hcol). exists er. split; [| by left].
        apply list_elem_of_fmap. exists c. split; [done |].
        by apply elem_of_range_step1.
    - split.
      + intros (y & (x & [= -> ->] & Hx%elem_of_range_step1)%list_elem_of_fmap
                 & Hy%elem_of_range_step1).
        split; [congruence | done].
      + intros (_ & Hrow & Hcol). exists r.
        split; [| by apply elem_of_range_step1].
        apply list_elem_of_fmap. exists c. split; [done |].
        by apply elem_of_range_step1. }
  split; [exact Hmem |]. split; [| split].
  - rewrite Hmem. unfold towards. cbn [row column].
    intros (Hne & Hr & Hc).
    destruct (Z.eqb_spec sr er) as [-> | ?], (Z.eqb_spec sc ec) as [-> | ?];
      [done | lia | lia | lia].
  - rewrite Hmem. unfold towards. cbn [row column]. split; [by intros [? _] |].
    intros Hne. split; [done |].
    destruct (Z.eqb_spec sr er) as [-> | ?], (Z.eqb_spec sc ec) as [-> | ?];
      [done | split; [done | lia] | split; [lia | done] | split; lia].
  - unfold Matrix.range. rewrite flatMap_bind. cbn [row column].
    destruct (Z.eqb_spec sc ec) as [-> | Hc], (Z.eqb_spec sr er) as [-> | Hr];
      cbn [negb].
    + by rewrite bool_decide_eq_true_2.
    + rewrite bool_decide_eq_false_2 by congruence.
      rewrite (length_bind_const _ _ 1%nat) by done.
      rewrite length_range_step1, Z.sub_diag.
      change (Z.to_nat (1 `max` Z.abs 0)) with 1%nat.
      replace (1 `max` Z.abs (er - sr)) with (Z.abs (er - sr)) by lia. done.
    + rewrite bool_decide_eq_false_2 by congruence.
      rewrite (length_bind_const _ _ (Z.to_nat (Z.abs (ec - sc))))
        by (intros; by rewrite length_fmap, length_range_step1).
      rewrite Z.sub_diag. change (Z.to_nat (1 `max` Z.abs 0)) with 1%nat.
      replace (1 `max` Z.abs (ec - sc)) with (Z.abs (ec - sc)) by lia. done.
    + rewrite bool_decide_eq_false_2 by congruence.
      rewrite (length_bind_const _ _ (Z.to_nat (Z.abs (ec - sc))))
        by (intros; by rewrite length_fmap, length_range_step1).
      rewrite length_range_step1.
      replace (1 `max` Z.abs (er - sr)) with (Z.abs (er - sr)) by lia.
      replace (1 `max` Z.abs (ec - sc)) with (Z.abs (ec - sc)) by lia. done.
Qed.

Example range_two_by_two :
  Matrix.range (mkPoint 2 2) (mkPoint 0 0)
  = [mkPoint 0 0; mkPoint 0 1; mkPoint 1 0; mkPoint 1 1].
Proof. reflexivity. Qed.

Example range_down_a_column :
  Matrix.range (mkPoint 2 0) (mkPoint 0 0) = [mkPoint 0 0; mkPoint 1 0].
Proof. reflexivity. Qed.

Lemma lookup_span a b (i : nat) :
  span a b !! i
  = if (i <=? Z.to_nat (Z.abs (b - a)))%nat
    then Some (if b <? a then a - Z.of_nat i else a + Z.of_nat i)
    else None.
Proof.
  unfold span. rewrite list_lookup_fmap.
  destruct (Nat.leb_spec i (Z.to_nat (Z.abs (b - a)))).
  - by rewrite lookup_seq_lt by lia.
  - by rewrite lookup_seq_ge by lia.
Qed.

Lemma length_span a b : length (span a b) = S (Z.to_nat (Z.abs (b - a))).
Proof. unfold span. by rewrite length_fmap, length_seq. Qed.

Lemma reverse_span a b : reverse (span b a) = span a b.
Proof.
  apply list_eq. intros i.
  destruct (decide (i < length (span b a))%nat) as [Hi | Hi].
  - rewrite reverse_lookup by done. rewrite !lookup_span, length_span.
    rewrite length_span in Hi.
    rewrite !(proj2 (Nat.leb_le _ _)) by lia. f_equal.
    destruct (Z.ltb_spec a b), (Z.ltb_spec b a); lia.
  - rewrite lookup_ge_None_2 by (rewrite length_reverse; lia).
    rewrite lookup_span. rewrite length_span in Hi.
    by rewrite (proj2 (Nat.leb_gt _ _)) by lia.
Qed.

Lemma reverse_bind {A B} (f : A → list B) (l : list A) :
  reverse (l ≫= f) = reverse l ≫= (λ x, reverse (f x)).
Proof.
  induction l as [| x l IH]; [done |].
  change ((x :: l) ≫= f) with (f x ++ (l ≫= f)).
  rewrite reverse_app, IH, reverse_cons, bind_app, bind_singleton. done.
Qed.

(** Swapping the corners of an inclusive range reverses the enumeration,
    and the number of points is that of the rectangle between the corners,
    both included. *)
Theorem inclusiveRange_swap a b :
  a ≠ b →
  Matrix.inclusiveRange a b = reverse (Matrix.inclusiveRange b a)
  ∧ length (Matrix.inclusiveRange a b)
    = (S (Z.to_nat (Z.abs (row a - row b)))
       * S (Z.to_nat (Z.abs (column a - column b))))%nat.
Proof.
  intros Hne. rewrite !inclusiveRange_rectangle by done. unfold rectangle.
  split.
  - rewrite reverse_bind, reverse_span. apply list_bind_ext; [| done].
    intros r. by rewrite <- fmap_reverse, reverse_span.
  - rewrite (length_bind_const _ _ (S (Z.to_nat (Z.abs (column a - column b)))))
      by (intros; by rewrite length_fmap, length_span).
    by rewrite length_span.
Qed.

Lemma inclusiveRange_swap_witness :
  Matrix.inclusiveRange (mkPoint 0 0) (mkPoint 1 2)
  = reverse (Matrix.inclusiveRange (mkPoint 1 2) (mkPoint 0 0)).
Proof.
  exact (proj1 (inclusiveRange_swap (mkPoint 0 0) (mkPoint 1 2)
                  ltac:(discriminate))).
Defined.

(** * Further properties of the key handlers *)

Lemma setState_mode m state :
  setState (mkPatch None None None None (Some m) None None) state
  = inMode m state.
Proof.
  unfold setState, inMode. simpl.
  by destruct (active state), (cut state), (hasPasted state).
Qed.

Lemma inMode_same state : inMode (mode state) state = state.
Proof. by destruct state. Qed.

Section MoreKeyFacts.
Variable updateData : Matrix.Matrix → Point → Js.value → Matrix.Matrix.
Variable extendEdge shrinkEdge :
  gset Point → PointSet.Field → Z → gset Point.
Variable allocate : Matrix.Matrix → positive.

#[local] Abbreviation keyDown :=
  (handleKeyDown updateData extendEdge shrinkEdge allocate).

(** In edit mode the Shift key makes no difference. *)
Lemma edit_ignores_shift state k shift :
  mode state = edit →
  keyDown state (mkEvent k shift) = keyDown state (mkEvent k false).
Proof.
  intros Hmode. unfold handleKeyDown. rewrite Hmode. simpl.
  unfold editKeyDownHandlers, keyDownHandlers. simpl.
  by repeat case_key k.
Qed.

(** Entering edit mode and pressing Escape is a round trip: from view mode,
    Enter, or a key press on an active cell, leads to edit mode with nothing
    else changed, and Escape, with or without Shift, leads back to the very
    state left. *)
Theorem edit_then_escape state :
  mode state = view →
  dispatch keyDown state (mkEvent "Enter" false)
  = Returns (inMode edit state)
  ∧ (∀ event, is_Some (active state) →
       dispatch handleKeyPress state event = Returns (inMode edit state))
  ∧ ∀ shift,
      dispatch keyDown (inMode edit state) (mkEvent "Escape" shift)
      = Returns state.
Proof.
  intros Hmode. split; [| split].
  - unfold dispatch, handleKeyDown. rewrite Hmode. simpl.
    by rewrite setState_mode.
  - intros event [a Ha]. unfold dispatch, handleKeyPress.
    rewrite Hmode, Ha. by rewrite setState_mode.
  - intros shift. unfold dispatch, handleKeyDown. simpl.
    rewrite setState_mode. unfold inMode. simpl. rewrite <- Hmode.
    by destruct state.
Qed.

(** In edit mode, with or without Shift, Tab does what ArrowRight does in
    view mode and Enter what ArrowDown does: the move is made if the target
    exists, and either way the mode ends up "view". *)
Theorem edit_mode_tab_and_enter state a shift :
  mode state = edit →
  active state = Some a →
  dispatch keyDown state (mkEvent "Tab" shift)
  = dispatch keyDown (inMode view state) (mkEvent "ArrowRight" false)
  ∧ dispatch keyDown state (mkEvent "Enter" shift)
    = dispatch keyDown (inMode view state) (mkEvent "ArrowDown" false)
  ∧ ∀ k state',
      k = "Tab" ∨ k = "Enter" →
      dispatch keyDown state (mkEvent k shift) = Returns state' →
      mode state' = view.
Proof.
  intros Hmode Ha.
  assert (∀ rowDelta columnDelta event event',
            dispatch (go rowDelta columnDelta) state event
            = dispatch (go rowDelta columnDelta) (inMode view state) event')
    as Hgo.
  { intros. unfold dispatch. rewrite !(go_active _ _ _ _ a) by done. simpl.
    destruct (Matrix.has _ _ _); unfold setState; simpl;
      by destruct (cut state), (hasPasted state). }
  assert (∀ rowDelta columnDelta event state',
            dispatch (go rowDelta columnDelta) state event = Returns state' →
            mode state' = view) as Hview.
  { intros ???? Hd. unfold dispatch in Hd.
    rewrite (go_active _ _ _ _ a) in Hd by done. simpl in Hd.
    destruct (Matrix.has _ _ _); by injection Hd as <-. }
  unfold dispatch, handleKeyDown in *. rewrite Hmode. simpl.
  split; [apply Hgo |]. split; [apply Hgo |].
  intros k state' [-> | ->]; simpl; apply Hview.
Qed.

(** Without an active cell a key press does nothing, and neither does any
    key down without Shift in view mode, Enter apart, nor any key down in
    edit mode, Escape apart. *)
Theorem keys_without_active_cell state k shift event :
  active state = None →
  dispatch handleKeyPress state event = Returns state
  ∧ (mode state = view → k ≠ "Enter" →
     dispatch keyDown state (mkEvent k false) = Returns state)
  ∧ (mode state = edit → k ≠ "Escape" →
     dispatch keyDown state (mkEvent k shift) = Returns state).
Proof.
  intros Ha. split; [| split].
  - unfold dispatch, handleKeyPress. rewrite Ha. by destruct (mode state).
  - intros Hmode Hk. apply guarded_keys_inactive; [done |]. by left.
  - intros Hmode Hk. unfold dispatch. rewrite edit_ignores_shift by done.
    apply (guarded_keys_inactive updateData extendEdge shrinkEdge allocate);
      [done |]. by right.
Qed.

Lemma go_keeps rowDelta columnDelta state event state' :
  settled state →
  dispatch (go rowDelta columnDelta) state event = Returns state' →
  settled state' ∧ data state' = data state.
Proof.
  intros Hsettled Hd. unfold dispatch in Hd.
  destruct (active state) as [a|] eqn:Ha.
  - rewrite (go_active _ _ _ _ a) in Hd by done. simpl in Hd.
    destruct (Matrix.has _ _ _) eqn:Hhas; injection Hd as <-.
    + split; [| done]. unfold settled, setState, moveTo. simpl. split.
      * by intros ? [= <-].
      * by intros p ->%elem_of_singleton.
    + unfold resetMode. rewrite setState_mode. by split.
  - rewrite go_inactive in Hd by done. injection Hd as <-. by split.
Qed.

(** Whatever the key, Backspace apart, and whatever [extendEdge] and
    [shrinkEdge] do: if the active cell and the selected points are on
    cells that exist, they still are after the key is handled, and the data
    is as it was. *)
Theorem keys_keep_to_cells state event state' :
  settled state →
  key event ≠ "Backspace" →
  dispatch keyDown state event = Returns state' →
  settled state' ∧ data state' = data state.
Proof.
  intros Hsettled Hkey.
  assert (∀ m, settled (inMode m state) ∧ data (inMode m state) = data state)
    as Hmode by (intros m; split; [exact Hsettled | done]).
  assert (∀ field delta,
            dispatch (modifyEdge extendEdge shrinkEdge field delta) state event
            = Returns state' →
            settled state' ∧ data state' = data state) as Hedge.
  { intros field delta Hd. unfold dispatch, modifyEdge in Hd.
    destruct (active state) as [a|] eqn:Ha; [| done].
    injection Hd as <-. split; [| done].
    destruct Hsettled as [Hactive _]. split; simpl.
    - rewrite Ha. intros b [= <-]. by apply Hactive.
    - intros p [Hp _]%elem_of_filter. by destruct (Matrix.has _ _ _). }
  destruct event as [k shift]. simpl in Hkey.
  unfold dispatch in *. unfold handleKeyDown. simpl.
  destruct (mode state) eqn:Hm.
  - destruct shift.
    + unfold shiftKeyDownHandlers.
      repeat case_key k; try apply Hedge. intros [= <-]. by split.
    + unfold keyDownHandlers.
      repeat case_key k; try (by apply go_keeps).
      * intros [= <-]. rewrite setState_mode. apply Hmode.
      * intros [= <-]. by split.
  - unfold editKeyDownHandlers, keyDownHandlers. simpl.
    repeat case_key k; try (by apply go_keeps).
    + intros [= <-]. rewrite setState_mode. apply Hmode.
    + intros [= <-]. by split.
Qed.

End MoreKeyFacts.

Lemma edit_then_escape_witness :
  dispatch keyDownAB (inMode edit atOrigin) (mkEvent "Escape" true)
  = Returns atOrigin.
Proof.
  exact (proj2 (proj2 (edit_then_escape writeCell keepEdge keepEdge
                         firstAddress atOrigin eq_refl)) true).
Defined.

Lemma edit_mode_tab_and_enter_witness :
  dispatch keyDownAB (inMode edit atOrigin) (mkEvent "Tab" true)
  = dispatch keyDownAB (inMode view (inMode edit atOrigin))
      (mkEvent "ArrowRight" false).
Proof.
  exact (proj1 (edit_mode_tab_and_enter writeCell keepEdge keepEdge
                  firstAddress (inMode edit atOrigin) (mkPoint 0 0) true
                  eq_refl eq_refl)).
Defined.

Lemma keys_without_active_cell_witness :
  dispatch keyDownAB (initialState sheetAB) (mkEvent "ArrowDown" false)
  = Returns (initialState sheetAB).
Proof.
  exact (proj1 (proj2 (keys_without_active_cell writeCell keepEdge keepEdge
                         firstAddress (initialState sheetAB) "ArrowDown"
                         false (mkEvent "a" false) eq_refl))
           eq_refl ltac:(discriminate)).
Defined.

Lemma settled_atOrigin : settled atOrigin.
Proof.
  split.
  - by intros a [= <-].
  - unfold atOrigin. cbn [selected]. by intros p ->%elem_of_singleton.
Qed.

Lemma keys_keep_to_cells_witness :
  settled (mkState sheetAB {[ mkPoint 0 1 ]} ∅ (Some (mkPoint 0 1))
             view None None).
Proof.
  exact (proj1 (keys_keep_to_cells writeCell keepEdge keepEdge firstAddress
                  atOrigin (mkEvent "ArrowRight" false) _
                  settled_atOrigin ltac:(discriminate) eq_refl)).
Defined.

(** * Further properties of the clipboard handlers *)

Lemma getEdgeValue_empty field delta :
  PointSet.getEdgeValue ∅ field delta = None.
Proof. unfold PointSet.getEdgeValue. by rewrite elements_empty. Qed.

(** With nothing copied the callback of paste never runs, so the active
    point is not read and its absence does no harm: the outcome turns on
    the calls of [getEdgeValue] alone.  If they throw, paste throws and the
    store is not updated; if they return, whatever they return, the data is
    kept, the selection becomes empty, and the flags are set as after any
    paste. *)
Theorem paste_nothing_copied edgeOfNothing state :
  copied state = ∅ →
  handlePaste edgeOfNothing state
  = match edgeOfNothing with
    | Throws => Throws
    | Returns _ =>
        Returns {| data := data state;
                   selected := ∅;
                   copied := ∅;
                   active := active state;
                   mode := view;
                   cut := Some false;
                   hasPasted := Some true |}
    end.
Proof.
  intros Hcopied. unfold handlePaste. rewrite Hcopied, !getEdgeValue_empty.
  destruct edgeOfNothing as [[] |]; [| done].
  unfold setState. simpl. by rewrite Hcopied.
Qed.

Lemma paste_nothing_copied_witness :
  handlePaste (Returns ()) (initialState sheetAB)
  = Returns (mkState sheetAB ∅ ∅ None view (Some false) (Some true)).
Proof.
  exact (paste_nothing_copied (Returns ()) (initialState sheetAB) eq_refl).
Defined.

(** With something copied and no active point, paste throws and the store
    is not updated. *)
Theorem paste_without_active_point edgeOfNothing state :
  copied state ≠ ∅ →
  active state = None →
  handlePaste edgeOfNothing state = Throws.
Proof.
  intros Hne Ha. unfold handlePaste.
  destruct (getEdgeValue_minimum _ PointSet.Row Hne) as (minRow & -> & _).
  destruct (getEdgeValue_minimum _ PointSet.Column Hne) as (minColumn & -> & _).
  by rewrite Ha.
Qed.

Lemma isMinimum_unique set field m m' :
  isMinimum set field m → isMinimum set field m' → m = m'.
Proof.
  intros [Hle (p & Hp & Hm)] [Hle' (p' & Hp' & Hm')].
  specialize (Hle p' Hp'). specialize (Hle' p Hp). lia.
Qed.

(** Pasting a copied region with the active point at its minimal corner
    puts every cell where it was: no position reads differently afterwards,
    the extents are kept, and the selection becomes the copied points that
    [Matrix.has] finds in the data. *)
Theorem paste_in_place edgeOfNothing state a :
  active state = Some a →
  copied state ≠ ∅ →
  isMinimum (copied state) PointSet.Row (row a) →
  isMinimum (copied state) PointSet.Column (column a) →
  ∃ state',
    handlePaste edgeOfNothing state = Returns state'
    ∧ (∀ i j, Matrix.get i j (data state') = Matrix.get i j (data state))
    ∧ shape (data state') = shape (data state)
    ∧ (∀ p, p ∈ selected state'
            ↔ p ∈ copied state
              ∧ Matrix.has (row p) (column p) (data state) = true).
Proof.
  intros Ha Hne HminR HminC.
  destruct (getEdgeValue_minimum _ PointSet.Row Hne) as (minRow & HR & HR').
  destruct (getEdgeValue_minimum _ PointSet.Column Hne)
    as (minColumn & HC & HC').
  rewrite (isMinimum_unique _ _ _ _ HR' HminR) in HR.
  rewrite (isMinimum_unique _ _ _ _ HC' HminC) in HC.
  clear minRow minColumn HR' HC'.
  assert (∀ p, translate (row a) (column a) a p = p) as Hid.
  { intros [r c]. unfold translate. simpl. f_equal; lia. }
  pose proof (pasted_fold state (row a) (column a) a (elements (copied state))
                (NoDup_elements _)) as (Hsel & Hwritten & Hkept & Hshape).
  set (folded := foldl _ _ _) in *.
  exists (setState
            (mkPatch (Some (acc_data folded)) (Some (acc_selected folded))
               None None (Some view) (Some false) (Some true)) state).
  split; [unfold handlePaste; by rewrite HR, HC, Ha |].
  cbn [setState data selected patch_data patch_selected default].
  split; [| split; [exact Hshape |]].
  - intros i j.
    destruct (decide (mkPoint i j ∈ elements (copied state)
                      ∧ lands state (row a) (column a) a (mkPoint i j) = true))
      as [[Hin Hl] | Hnot].
    + specialize (Hwritten _ Hin Hl). by rewrite Hid in Hwritten.
    + apply Hkept. intros p Hp Hl. rewrite Hid. intros ->. by apply Hnot.
  - intros p. rewrite Hsel. unfold lands. split.
    + intros (q & Hq%elem_of_elements & -> & Hl). rewrite !Hid in *. done.
    + intros [Hp Hhas]. exists p. rewrite Hid.
      split; [by apply elem_of_elements | done].
Qed.

Lemma pasteOverCells_in_place :
  let state :=
    mkState (data pasteOverCells) ∅ (copied pasteOverCells)
      (Some (mkPoint 0 0)) view None None in
  isMinimum (copied state) PointSet.Row 0
  ∧ isMinimum (copied state) PointSet.Column 0.
Proof.
  simpl. split; (split; [| exists (mkPoint 0 0); split; [set_solver | done]]).
  - intros p [->%elem_of_singleton | ->%elem_of_singleton]%elem_of_union;
      simpl; lia.
  - intros p [->%elem_of_singleton | ->%elem_of_singleton]%elem_of_union;
      simpl; lia.
Qed.

Lemma paste_in_place_witness :
  ∃ state',
    handlePaste Throws
      (mkState (data pasteOverCells) ∅ (copied pasteOverCells)
         (Some (mkPoint 0 0)) view None None)
    = Returns state'
    ∧ ∀ i j, Matrix.get i j (data state')
             = Matrix.get i j (data pasteOverCells).
Proof.
  destruct (paste_in_place Throws
              (mkState (data pasteOverCells) ∅ (copied pasteOverCells)
                 (Some (mkPoint 0 0)) view None None)
              (mkPoint 0 0) eq_refl copied_pasteOverCells
              (proj1 pasteOverCells_in_place) (proj2 pasteOverCells_in_place))
    as (state' & Hpaste & Hget & _).
  exists state'. exact (conj Hpaste Hget).
Defined.

Lemma copied_copiedButInactive : copied copiedButInactive ≠ ∅.
Proof.
  unfold copiedButInactive. cbn [copied]. intros Heq.
  assert (mkPoint 0 0 ∈ (∅ : gset Point)) as Hin
    by (rewrite <- Heq; by apply elem_of_singleton).
  by apply not_elem_of_empty in Hin.
Qed.

Lemma paste_without_active_point_witness :
  handlePaste (Returns ()) copiedButInactive = Throws.
Proof.
  exact (paste_without_active_point (Returns ()) copiedButInactive
           copied_copiedButInactive eq_refl).
Defined.

(** With nothing selected, copy does not fail: the text is empty, and the
    state records an empty copied set with [cut] and [hasPasted] false,
    everything else being kept. *)
Theorem copy_nothing_selected permissions state :
  selected state = ∅ →
  handleCopy permissions state
  = Returns
      {| clipboard := if permitted permissions then Some "" else None;
         after := {| data := data state;
                     selected := ∅;
                     copied := ∅;
                     active := active state;
                     mode := mode state;
                     cut := Some false;
                     hasPasted := Some false |} |}.
Proof.
  intros Hsel. unfold handleCopy, PointSet.toMatrix, PointSet.reduce.
  rewrite Hsel, elements_empty. simpl. unfold setState, permitted. simpl.
  rewrite Hsel.
  destruct permissions as [status|], (active state); try done.
Qed.

Lemma copy_nothing_selected_witness :
  handleCopy None (initialState sheetAB)
  = Returns (mkCopied (Some "")
               (mkState sheetAB ∅ ∅ None view (Some false) (Some false))).
Proof.
  exact (copy_nothing_selected None (initialState sheetAB) eq_refl).
Defined.

Lemma paste_flags edgeOfNothing state state' :
  handlePaste edgeOfNothing state = Returns state' →
  cut state' = Some false ∧ hasPasted state' = Some true
  ∧ mode state' = view ∧ copied state' = copied state
  ∧ active state' = active state.
Proof.
  unfold handlePaste.
  destruct (PointSet.getEdgeValue (copied state) PointSet.Row (-1)),
    (PointSet.getEdgeValue (copied state) PointSet.Column (-1)),
    (active state) eqn:Ha, edgeOfNothing;
    try done; intros [= <-]; simpl; by rewrite ?Ha.
Qed.

(** Cut is copy with the [cut] flag raised: it writes the text copy writes
    and fails when copy fails; it records the selection as copied and
    leaves the data alone, so the cells cut stay where they are; and the
    paste that follows lowers the flag again. *)
Theorem cut_then_paste permissions state c :
  handleCut permissions state = Returns c →
  (∃ c0, handleCopy permissions state = Returns c0
         ∧ clipboard c = clipboard c0
         ∧ after c = {| data := data (after c0);
                        selected := selected (after c0);
                        copied := copied (after c0);
                        active := active (after c0);
                        mode := mode (after c0);
                        cut := Some true;
                        hasPasted := hasPasted (after c0) |})
  ∧ data (after c) = data state
  ∧ selected (after c) = selected state
  ∧ copied (after c) = selected state
  ∧ cut (after c) = Some true
  ∧ ∀ edgeOfNothing state',
      handlePaste edgeOfNothing (after c) = Returns state' →
      cut state' = Some false ∧ hasPasted state' = Some true
      ∧ copied state' = selected state.
Proof.
  unfold handleCut. destruct (handleCopy permissions state) as [c0|] eqn:Hcopy;
    [| done].
  intros [= <-]. cbn [clipboard after].
  assert (data (after c0) = data state ∧ selected (after c0) = selected state
          ∧ copied (after c0) = selected state) as (Hd & Hs & Hc).
  { unfold handleCopy in Hcopy.
    destruct (Matrix.map getValue _); [| done]. by injection Hcopy as <-. }
  split; [| split; [| split; [| split; [| split]]]]; try done.
  - exists c0. split; [done |]. split; [done |].
    unfold setState. simpl. by destruct (active (after c0)), (hasPasted (after c0)).
  - intros edgeOfNothing state'
      (Hcut & Hpasted & _ & Hcopied & _)%paste_flags.
    split; [done |]. split; [done |]. by rewrite Hcopied.
Qed.

Lemma cut_then_paste_witness :
  ∃ c0, handleCopy None copyWrappedAB = Returns c0
        ∧ clipboard c0 = Some "A, B".
Proof.
  destruct (cut_then_paste None copyWrappedAB
              (mkCopied (Some "A, B")
                 (mkState (data copyWrappedAB) (selected copyWrappedAB)
                    (selected copyWrappedAB) (Some (mkPoint 0 0)) view
                    (Some true) (Some false)))
              ltac:(vm_compute; reflexivity))
    as ((c0 & Hcopy & Hclip & _) & _).
  exists c0. split; [exact Hcopy |]. by rewrite <- Hclip.
Defined.

(** * Further properties of [ActiveCell] *)

(** One run of [componentDidUpdate] either takes a snapshot or commits,
    never both.  It commits at most one record, and only when edit mode is
    left with a truthy cell that is not the snapshot; it replaces the
    snapshot only when edit mode is entered from view mode. *)
Theorem componentDidUpdate_effects prevProps props this :
  let after := ActiveCell.componentDidUpdate prevProps props this in
  (after.2 ≠ [] →
   after.2 = committed (ActiveCell.cellBeforeUpdate this)
               (ActiveCell.cell prevProps)
   ∧ length after.2 = 1%nat
   ∧ ActiveCell.mode prevProps = Some edit
   ∧ ActiveCell.mode props ≠ Some edit
   ∧ Js.truthy (ActiveCell.cell prevProps) = true
   ∧ Js.strict_eq (ActiveCell.cell prevProps)
       (ActiveCell.cellBeforeUpdate this) = false
   ∧ after.1 = this)
  ∧ (after.1 ≠ this →
     after.1 = ActiveCell.mkCellState (ActiveCell.cell prevProps)
     ∧ ActiveCell.mode prevProps = Some view
     ∧ ActiveCell.mode props = Some edit
     ∧ after.2 = []).
Proof.
  unfold ActiveCell.componentDidUpdate, committed. simpl.
  destruct (_ || _); [| by split].
  destruct (bool_decide (ActiveCell.mode prevProps = Some view)) eqn:Hview;
    destruct (bool_decide (ActiveCell.mode props = Some edit)) eqn:Hedit;
    simpl.
  - apply bool_decide_eq_true_1 in Hview, Hedit. by split.
  - apply bool_decide_eq_false_1 in Hedit.
    destruct (bool_decide (ActiveCell.mode prevProps = Some edit)) eqn:Hprev;
      simpl; [| by split].
    apply bool_decide_eq_true_1 in Hprev.
    destruct (bool_decide (ActiveCell.mode prevProps = ActiveCell.mode props));
      simpl; [by split |].
    destruct (Js.truthy (ActiveCell.cell prevProps)); simpl; [| by split].
    destruct (Js.strict_eq _ _); simpl; by split.
  - apply bool_decide_eq_true_1 in Hedit.
    destruct (bool_decide (ActiveCell.mode prevProps = Some edit)) eqn:Hprev;
      simpl; [| by split].
    apply bool_decide_eq_true_1 in Hprev.
    rewrite bool_decide_eq_true_2 by congruence. simpl. by split.
  - apply bool_decide_eq_false_1 in Hedit.
    destruct (bool_decide (ActiveCell.mode prevProps = Some edit)) eqn:Hprev;
      simpl; [| by split].
    apply bool_decide_eq_true_1 in Hprev.
    destruct (bool_decide (ActiveCell.mode prevProps = ActiveCell.mode props));
      simpl; [by split |].
    destruct (Js.truthy (ActiveCell.cell prevProps)); simpl; [| by split].
    destruct (Js.strict_eq _ _); simpl; by split.
Qed.

(** As long as no props are in edit mode, however the cell changes, no
    call is made and the snapshot is kept. *)
Theorem updates_outside_edit_mode prevProps rest this :
  Forall (λ p, ActiveCell.mode p ≠ Some edit) (prevProps :: rest) →
  ActiveCell.updates prevProps rest this = (this, []).
Proof.
  revert prevProps. induction rest as [| props rest IH];
    intros prevProps Hmodes; [done |].
  apply Forall_cons in Hmodes as [Hprev Hrest].
  pose proof Hrest as [Hprops _]%Forall_cons.
  cbn [ActiveCell.updates].
  assert (ActiveCell.componentDidUpdate prevProps props this = (this, []))
    as ->.
  { unfold ActiveCell.componentDidUpdate.
    rewrite (bool_decide_eq_false_2 (ActiveCell.mode props = Some edit))
      by done.
    rewrite (bool_decide_eq_false_2 (ActiveCell.mode prevProps = Some edit))
      by done.
    rewrite andb_false_r. simpl. by destruct (_ || _). }
  by rewrite IH.
Qed.

Lemma updates_outside_edit_mode_witness :
  ActiveCell.updates (ActiveCell.mkProps cellX (Some view))
    [ActiveCell.mkProps cellY (Some view); ActiveCell.mkProps cellX None]
    ActiveCell.initial
  = (ActiveCell.initial, []).
Proof.
  exact (updates_outside_edit_mode (ActiveCell.mkProps cellX (Some view))
           [ActiveCell.mkProps cellY (Some view); ActiveCell.mkProps cellX None]
           ActiveCell.initial
           ltac:(repeat constructor; discriminate)).
Defined.

(** * Further properties of mounting and unmounting *)

(** Mounting gives an instance four listeners more, three on the document
    and one on its store, and unmounting takes away the one on the store;
    neither touches the listeners of another instance. *)
Theorem listeners_of_other_instances instance other page :
  instance ≠ other →
  listenersOf other (componentDidMount instance page) = listenersOf other page
  ∧ listenersOf other (componentWillUnmount instance page)
    = listenersOf other page
  ∧ listenersOf instance (componentDidMount instance page)
    = (listenersOf instance page + 4)%nat
  ∧ listenersOf instance (componentWillUnmount instance page)
    = length (List.filter (λ l, (l.2 =? instance)%nat)
                (documentListeners page)).
Proof.
  intros Hne. unfold listenersOf, componentDidMount, componentWillUnmount.
  cbn [documentListeners storeSubscriptions].
  assert ((instance =? other)%nat = false) as Hio by (by apply Nat.eqb_neq).
  split; [| split; [| split]].
  - rewrite List.filter_app, length_app. simpl. rewrite Hio. simpl. lia.
  - f_equal. f_equal. induction (storeSubscriptions page) as [| i l IH];
      [done |].
    simpl. destruct (Nat.eqb_spec i instance) as [-> | Hi]; simpl.
    + by rewrite Hio.
    + by rewrite IH.
  - rewrite List.filter_app, length_app. simpl. rewrite Nat.eqb_refl. simpl.
    lia.
  - by rewrite filter_other_instance.
Qed.

Lemma listeners_of_other_instances_witness :
  listenersOf 1 (componentWillUnmount 0 (componentDidMount 1 emptyPage))
  = listenersOf 1 (componentDidMount 1 emptyPage).
Proof.
  exact (proj1 (proj2 (listeners_of_other_instances 0 1
                         (componentDidMount 1 emptyPage)
                         ltac:(discriminate)))).
Defined.

(** * Further properties of [set] on the heap *)

(** [set] copies the matrix array and the one row it writes, nothing else:
    in the matrix it returns, the row written is a new array and every
    other row is the very array the given matrix holds at that index. *)
Theorem heap_set_shares_rows i j v m h M rows :
  0 ≤ i →
  Heap.matrixAt h m = Some M →
  h !! m = Some (Heap.Rows rows) →
  ∃ m' h' rows' r,
    Heap.set i j v m h = Some (m', h')
    ∧ h' !! m' = Some (Heap.Rows rows')
    ∧ Js.index rows' i = Some r
    ∧ h !! r = None
    ∧ (∀ k, k ≠ i → Js.index rows' k = Js.index rows k)
    ∧ length rows' = (length rows `max` S (Z.to_nat i))%nat.
Proof.
  intros Hi HM Hm. unfold Heap.matrixAt in HM. unfold Heap.set.
  rewrite Hm in HM |- *.
  pose proof (rowAt_index _ _ _ i HM) as Hrow.
  assert (∃ copy,
            match Js.index rows i with
            | Some r => match h !! r with
                        | Some (Heap.Cells cells) => Some (Js.spread cells)
                        | _ => None
                        end
            | None => Some []
            end = Some copy) as [copy ->].
  { destruct (Js.index rows i) as [r|]; [| by eexists].
    destruct Hrow as (cells & -> & _). by eexists. }
  simpl. unfold Heap.allocate, Heap.assignCell.
  set (nextRow := fresh (dom h)).
  assert (h !! nextRow = None) as HnextRow
    by apply not_elem_of_dom, is_fresh.
  rewrite lookup_insert_eq. simpl. rewrite insert_insert_eq.
  set (h1 := <[nextRow := Heap.Cells (Js.assign j v copy)]> h).
  set (nextMatrix := fresh (dom h1)).
  unfold Heap.assignRow. rewrite lookup_insert_eq. simpl.
  rewrite insert_insert_eq.
  eexists nextMatrix, _, (Js.assign i nextRow rows), nextRow.
  split; [done |]. split; [apply lookup_insert_eq |].
  split; [by apply index_assign_eq |]. split; [done |].
  split; [intros k Hk; by apply index_assign_ne |].
  rewrite length_assign. by rewrite (proj2 (Z.ltb_ge _ _)) by lia.
Qed.

Lemma heap_set_shares_rows_witness :
  ∃ m' h' rows',
    Heap.set 1 0 cellB 2 heapAB = Some (m', h')
    ∧ h' !! m' = Some (Heap.Rows rows')
    ∧ Js.index rows' 0 = Some 1%positive.
Proof.
  destruct (heap_set_shares_rows 1 0 cellB 2%positive heapAB sheetAB
              [Some 1%positive] ltac:(lia) heapAB_matrix eq_refl)
    as (m' & h' & rows' & r & Hset & Hrows & _ & _ & Hshared & _).
  exists m', h', rows'. split; [exact Hset |]. split; [exact Hrows |].
  exact (Hshared 0 ltac:(lia)).
Defined.

(** * Further properties of [join] and of Backspace *)

(** [join] cannot tell a hole from [undefined], nor a missing row from an
    empty one: the text is the same when every row is replaced by its
    spread copy, a missing row by the empty array. *)
Theorem join_blind_to_holes horizontalSeparator verticalSeparator m :
  Matrix.join_with horizontalSeparator verticalSeparator
    ((λ r : option Matrix.Row, Some (Js.spread (default [] r))) <$> m)
  = Matrix.join_with horizontalSeparator verticalSeparator m.
Proof.
  unfold Matrix.join_with. f_equal. rewrite <- list_fmap_compose.
  apply list_fmap_ext. intros _ r _. simpl. destruct r as [cells|]; [| done].
  simpl. unfold Js.join, Js.spread. f_equal. rewrite <- list_fmap_compose.
  apply list_fmap_ext. intros _ s _. by destruct s.
Qed.

Example join_patchy :
  Matrix.join patchy = String.append "[object Object], , "
                         (String.append Js.newline
                            (String.append Js.newline "0, [object Object]")).
Proof. reflexivity. Qed.

Section BackspaceFacts.
Variable updateData : Matrix.Matrix → Point → Js.value → Matrix.Matrix.
Variable extendEdge shrinkEdge :
  gset Point → PointSet.Field → Z → gset Point.
Variable allocate : Matrix.Matrix → positive.

(** Backspace in view mode changes nothing but the data, whatever
    [updateData] does, and with nothing selected it changes nothing at
    all. *)
Theorem backspace_keeps_selection state state' :
  mode state = view →
  dispatch (handleKeyDown updateData extendEdge shrinkEdge allocate) state
    (mkEvent "Backspace" false) = Returns state' →
  selected state' = selected state
  ∧ active state' = active state
  ∧ mode state' = view
  ∧ copied state' = copied state
  ∧ cut state' = cut state
  ∧ hasPasted state' = hasPasted state
  ∧ (selected state = ∅ → state' = state).
Proof.
  intros Hmode. unfold dispatch, handleKeyDown. rewrite Hmode. simpl.
  destruct (active state) as [a|] eqn:Ha.
  - intros [= <-]. unfold setState. simpl. rewrite Ha, Hmode.
    repeat split; try by destruct (cut state) || by destruct (hasPasted state).
    intros Hsel. unfold PointSet.reduce. rewrite Hsel, elements_empty. simpl.
    destruct state; simpl in *; subst.
    f_equal; by destruct cut0 || by destruct hasPasted0.
  - intros [= <-]. by rewrite Hmode.
Qed.

End BackspaceFacts.

Lemma backspace_keeps_selection_witness :
  selected (mkState sheetAB ∅ ∅ (Some (mkPoint 0 0)) view None None) = ∅.
Proof.
  exact (proj1 (backspace_keeps_selection writeCell keepEdge keepEdge
                  firstAddress
                  (mkState sheetAB ∅ ∅ (Some (mkPoint 0 0)) view None None)
                  (mkState sheetAB ∅ ∅ (Some (mkPoint 0 0)) view None None)
                  eq_refl eq_refl)).
Defined.
